(** * SuperCollider for VS Code: block locator and interpreter supervisor

    A shallow embedding of the client extension (the module that owns
    [sclangProcess], [findCodeBlock], [executeCode], ...) together with the
    properties of its block detection and process supervision, and of the
    language server's SuperCollider mode (word at the cursor, completion,
    hover).

    JavaScript strings are sequences of UTF-16 code units; they are
    modelled as [list N].  The module-level mutable variables and the
    objects of the host they touch (child processes, output channels,
    notifications, timers) are gathered in one explicit [State] that every
    function threads through. *)

From Stdlib Require Import ZArith NArith List String Ascii Lia Bool.
From Stdlib Require Import DecimalString.
From stdpp Require Import base list.
Import ListNotations.

Local Open Scope Z_scope.

(** ** JavaScript strings *)

Module JS.

Abbreviation jsstring := (list N).

(** A source literal, as its code units. *)
Definition str (s : string) : jsstring :=
  map N_of_ascii (list_ascii_of_string s).

Definition LPAREN : N := 40%N.
Definition RPAREN : N := 41%N.
Definition LF : N := 10%N.
Definition ESC : N := 27%N.

(** [s[i]]: [None] stands for [undefined]. *)
Definition charAt (s : jsstring) (i : nat) : option N := s !! i.

(** ECMAScript [WhiteSpace] and [LineTerminator] code units, the ones
    [String.prototype.trim] strips. *)
Definition isWhiteSpace (c : N) : bool :=
  existsb (N.eqb c)
    [ 9; 10; 11; 12; 13; 32; 160; 5760;
      8192; 8193; 8194; 8195; 8196; 8197; 8198; 8199; 8200; 8201; 8202;
      8232; 8233; 8239; 8287; 12288; 65279 ]%N.

Fixpoint trimStart (s : jsstring) : jsstring :=
  match s with
  | [] => []
  | c :: s' => if isWhiteSpace c then trimStart s' else s
  end.

Definition trimEnd (s : jsstring) : jsstring := rev (trimStart (rev s)).

Definition trim (s : jsstring) : jsstring := trimEnd (trimStart s).

(** [s.substring(start, end)]: both indices are clamped to
    [0 .. s.length] and swapped when [start > end]. *)
Definition substring (s : jsstring) (start end_ : Z) : jsstring :=
  let len := Z.of_nat (length s) in
  let a := Z.min (Z.max start 0) len in
  let b := Z.min (Z.max end_ 0) len in
  let from := Z.min a b in
  let to := Z.max a b in
  take (Z.to_nat (to - from)) (drop (Z.to_nat from) s).

(** [s.includes('\n')]. *)
Definition includesLF (s : jsstring) : bool := existsb (N.eqb LF) s.

(** [s.split('\n')[0]]. *)
Fixpoint firstLine (s : jsstring) : jsstring :=
  match s with
  | [] => []
  | c :: s' => if N.eqb c LF then [] else c :: firstLine s'
  end.

(** [a.join(sep)]. *)
Fixpoint join (sep : jsstring) (parts : list jsstring) : jsstring :=
  match parts with
  | [] => []
  | [p] => p
  | p :: rest => p ++ sep ++ join sep rest
  end.

(** ["\n"]. *)
Definition NL : jsstring := [LF].

(** Decimal rendering of an integer, as in a template literal. *)
Definition ofInt (z : Z) : jsstring := str (NilZero.string_of_int (Z.to_int z)).

(** Truthiness of a string: only the empty string is falsy. *)
Definition truthy (s : jsstring) : bool :=
  match s with [] => false | _ => true end.

(** Number of occurrences of the code unit [c]. *)
Fixpoint count (c : N) (s : jsstring) : nat :=
  match s with
  | [] => 0%nat
  | x :: s' => if N.eqb x c then S (count c s') else count c s'
  end.

End JS.
Import JS.

(** ** The host editor's document interface

    [TextDocument], [Position] and [Selection] belong to the editor, not to
    the extension.  The document keeps its lines (without terminators) and
    one end-of-line sequence; the operations below are the ones the
    extension calls. *)

Module Doc.

Record Position := mkPosition { line : nat; character : nat }.

Record TextDocument := mkDocument
  { lines : list jsstring; eol : jsstring }.

(** [document.getText()]. *)
Definition getText (d : TextDocument) : jsstring := join (eol d) (lines d).

(** Positions past the end of a line or of the document are adjusted to
    the nearest valid one, as the editor does. *)
Definition validatePosition (d : TextDocument) (p : Position) : Position :=
  match lines d !! line p with
  | Some l => mkPosition (line p) (Nat.min (character p) (length l))
  | None =>
      match lines d with
      | [] => mkPosition 0 0
      | _ => let n := (length (lines d) - 1)%nat in
             mkPosition n (length (default [] (lines d !! n)))
      end
  end.

(** Offset of the first code unit of line [n]. *)
Definition lineStart (d : TextDocument) (n : nat) : nat :=
  foldr (fun l acc => (length l + length (eol d) + acc)%nat) 0%nat
        (take n (lines d)).

(** [document.offsetAt(position)]. *)
Definition offsetAt (d : TextDocument) (p : Position) : nat :=
  let q := validatePosition d p in
  (lineStart d (line q) + character q)%nat.

(** [document.lineAt(n).text]; [None] when the editor throws
    ("Illegal value for `line`"). *)
Definition lineAt (d : TextDocument) (n : nat) : option jsstring :=
  lines d !! n.

Record Selection := mkSelection { anchor : Position; active : Position }.

Definition position_eqb (p q : Position) : bool :=
  Nat.eqb (line p) (line q) && Nat.eqb (character p) (character q).

Definition position_leb (p q : Position) : bool :=
  Nat.ltb (line p) (line q)
  || (Nat.eqb (line p) (line q) && Nat.leb (character p) (character q)).

(** [selection.isEmpty]. *)
Definition isEmpty (s : Selection) : bool :=
  position_eqb (anchor s) (active s).

Definition sel_start (s : Selection) : Position :=
  if position_leb (anchor s) (active s) then anchor s else active s.

Definition sel_end (s : Selection) : Position :=
  if position_leb (anchor s) (active s) then active s else anchor s.

(** [document.getText(range)]. *)
Definition getTextIn (d : TextDocument) (s : Selection) : jsstring :=
  substring (getText d)
    (Z.of_nat (offsetAt d (sel_start s)))
    (Z.of_nat (offsetAt d (sel_end s))).

Record TextEditor := mkEditor
  { document : TextDocument; selection : Selection }.

End Doc.
Import Doc.

(** ** Block locator *)

(** The backward loop of [findCodeBlock]:
    [for (let i = offset; i >= 0; i--)], started with the current [depth];
    the result is [startOffset], [-1] when the loop ends without a
    [break]. *)
Fixpoint scanBackward (text : jsstring) (i : nat) (depth : Z) : Z :=
  let next (d : Z) : Z :=
    match i with
    | O => -1
    | S j => scanBackward text j d
    end in
  match charAt text i with
  | Some c =>
      if N.eqb c RPAREN then next (depth + 1)
      else if N.eqb c LPAREN then
        if depth =? 0 then Z.of_nat i else next (depth - 1)
      else next depth
  | None => next depth
  end.

(** The forward loop: [for (let i = startOffset; i < text.length; i++)].
    [rest] is [text] from index [i] on, so the loop ends when [rest] is
    empty; the result is [endOffset], [-1] without a [break]. *)
Fixpoint scanForward (rest : jsstring) (i : Z) (depth : Z) : Z :=
  match rest with
  | [] => -1
  | c :: rest' =>
      if N.eqb c LPAREN then scanForward rest' (i + 1) (depth + 1)
      else if N.eqb c RPAREN then
        let depth' := depth - 1 in
        if depth' =? 0 then i + 1
        else scanForward rest' (i + 1) depth'
      else scanForward rest' (i + 1) depth
  end.

Definition findStart (text : jsstring) (offset : nat) : Z :=
  scanBackward text offset 0.

Definition findEnd (text : jsstring) (startOffset : Z) : Z :=
  if 0 <=? startOffset then
    scanForward (drop (Z.to_nat startOffset) text) startOffset 0
  else -1.

(** [findCodeBlock(document, position)]; [None] when [lineAt] throws. *)
Definition findCodeBlock (d : TextDocument) (p : Position) : option jsstring :=
  let text := getText d in
  let offset := offsetAt d p in
  let startOffset := findStart text offset in
  let endOffset := findEnd text startOffset in
  if (0 <=? startOffset) && (startOffset <? endOffset) then
    Some (substring text startOffset endOffset)
  else
    match lineAt d (line p) with
    | Some l => Some (trim l)
    | None => None
    end.

(** The fragment [executeBlockCommand] computes before it calls
    [executeCode]; [None] when [lineAt] throws. *)
Definition chosenFragment (ed : TextEditor) : option jsstring :=
  let d := document ed in
  let sel := selection ed in
  if negb (isEmpty sel) then Some (getTextIn d sel)
  else
    match findCodeBlock d (active sel) with
    | Some blockCode =>
        if truthy blockCode then Some blockCode
        else lineAt d (line (active sel))
    | None => None
    end.

(** ** Interpreter supervisor *)

(** What the extension reads from its surroundings: [process.platform], the
    [supercollider.sclangPath] setting ([None] when unset), for each
    executable path whether [spawn] throws synchronously (with the
    rendering of the thrown value), and for each process whether [kill()]
    on it delivers its signal (it does not when the process is already
    gone). *)
Record Env := mkEnv
  { platform : jsstring;
    configuredPath : option jsstring;
    spawnThrows : jsstring -> option jsstring;
    killDelivers : nat -> bool }.

(** The argument of an ['error'] event. *)
Record SpawnError := mkSpawnError
  { code : jsstring; message : jsstring }.

(** The error of a missing executable carries the code [ENOENT]. *)
Definition isNotFound (err : SpawnError) : bool :=
  bool_decide (code err = str "ENOENT").

(** A [ChildProcess] object.  [path] and [fallbackToExe] are the variables
    its observers have captured; [killed] is set by a [kill()] that has
    delivered its signal; [stdin] holds
    the chunks written so far, [None] when the object has no input
    stream. *)
Record ChildProcess := mkProcess
  { path : jsstring;
    fallbackToExe : bool;
    killed : bool;
    stdin : option (list jsstring) }.

(** The module variables and the host objects they reach.  [sclangProcess]
    is a reference into [heap], the objects [spawn] has created so far, in
    creation order; [None] is [null].  An output channel is the list of the
    chunks appended to it.  [timers] are the pending [setTimeout] callbacks,
    each with its delay and the [code] it has captured. *)
Record State := mkState
  { sclangProcess : option nat;
    heap : list ChildProcess;
    sclangOutput : list jsstring;
    postWindowOutput : list jsstring;
    postWindowShown : bool;
    errorMessages : list jsstring;
    timers : list (Z * jsstring) }.

Definition initial : State := mkState None [] [] [] false [] [].

Definition setProcess (h : option nat) (st : State) : State :=
  mkState h (heap st) (sclangOutput st) (postWindowOutput st)
          (postWindowShown st) (errorMessages st) (timers st).

Definition setHeap (hp : list ChildProcess) (st : State) : State :=
  mkState (sclangProcess st) hp (sclangOutput st) (postWindowOutput st)
          (postWindowShown st) (errorMessages st) (timers st).

Definition setTimers (ts : list (Z * jsstring)) (st : State) : State :=
  mkState (sclangProcess st) (heap st) (sclangOutput st) (postWindowOutput st)
          (postWindowShown st) (errorMessages st) ts.

(** [sclangOutput.appendLine(s)]. *)
Definition logLine (s : jsstring) (st : State) : State :=
  mkState (sclangProcess st) (heap st) (sclangOutput st ++ [s ++ NL])
          (postWindowOutput st) (postWindowShown st) (errorMessages st)
          (timers st).

(** [postWindowOutput.append(s)]. *)
Definition postAppend (s : jsstring) (st : State) : State :=
  mkState (sclangProcess st) (heap st) (sclangOutput st)
          (postWindowOutput st ++ [s]) (postWindowShown st)
          (errorMessages st) (timers st).

(** [postWindowOutput.appendLine(s)]. *)
Definition postAppendLine (s : jsstring) (st : State) : State :=
  postAppend (s ++ NL) st.

(** [postWindowOutput.show(true)]. *)
Definition postShow (st : State) : State :=
  mkState (sclangProcess st) (heap st) (sclangOutput st) (postWindowOutput st)
          true (errorMessages st) (timers st).

(** [window.showErrorMessage(s)]. *)
Definition showErrorMessage (s : jsstring) (st : State) : State :=
  mkState (sclangProcess st) (heap st) (sclangOutput st) (postWindowOutput st)
          (postWindowShown st) (errorMessages st ++ [s]) (timers st).

(** [setTimeout(() => ..., delay)] with the captured [code]. *)
Definition setTimeout (delay : Z) (c : jsstring) (st : State) : State :=
  setTimers (timers st ++ [(delay, c)]) st.

(** The object [sclangProcess] refers to, if any. *)
Definition deref (st : State) : option ChildProcess :=
  match sclangProcess st with
  | Some h => heap st !! h
  | None => None
  end.

(** [sclangProcess && !sclangProcess.killed]. *)
Definition isLive (st : State) : bool :=
  match deref st with
  | Some p => negb (killed p)
  | None => false
  end.

(** [proc.kill()]: the object remembers the signal only when it was
    delivered; otherwise the call returns [false] and changes nothing. *)
Definition kill (delivered : bool) (h : nat) (st : State) : State :=
  if delivered then
    setHeap (alter (fun p => mkProcess (path p) (fallbackToExe p) true (stdin p))
                   h (heap st)) st
  else st.

(** [proc.stdin.write(chunk)]. *)
Definition write (h : nat) (chunk : jsstring) (st : State) : State :=
  setHeap (alter (fun p => mkProcess (path p) (fallbackToExe p) (killed p)
                                     (option_map (fun w => w ++ [chunk]) (stdin p)))
                 h (heap st)) st.

(** Every chunk written so far to the input stream of any process. *)
Definition written (st : State) : list jsstring :=
  concat (map (fun p => default [] (stdin p)) (heap st)).

(** The inner [spawnProcess(path)] of [startSclang], for a [spawn] that
    returns: a new object with all three streams piped, whose observers
    have captured [path] and [fallbackToExe]. *)
Definition spawnProcess (pth : jsstring) (fb : bool) (st : State)
  : nat * State :=
  (length (heap st),
   setHeap (heap st ++ [mkProcess pth fb false (Some [])]) st).

Section Supervisor.

Variable env : Env.

(** [config.get('sclangPath') || 'sclang']. *)
Definition getSclangPath : jsstring :=
  match configuredPath env with
  | Some p => if truthy p then p else str "sclang"
  | None => str "sclang"
  end.

(** [startSclang(fallbackToExe)].  The conditional with an empty body
    ahead of the first log line does nothing and is left out;
    [spawnThrows] decides between the rest of the [try] block and the
    [catch] block. *)
Definition startSclang (fb : bool) (st : State) : bool * State :=
  if isLive st then
    (true, logLine (str "[SuperCollider] sclang already running") st)
  else
    let sclangPath := getSclangPath in
    let st := logLine (str "[SuperCollider] Starting sclang: " ++ sclangPath) st in
    match spawnThrows env sclangPath with
    | Some err =>
        let st := logLine (str "[SuperCollider] Failed to start sclang: " ++ err) st in
        let st := showErrorMessage
          (str "Failed to start sclang. Make sure SuperCollider is installed and sclangPath is configured.") st in
        (false, st)
    | None =>
        let (proc, st) := spawnProcess sclangPath fb st in
        let st := setProcess (Some proc) st in
        let st := logLine (str "[SuperCollider] sclang process spawned, waiting for output...") st in
        let st := postShow st in
        (true, st)
    end.

(** [stopSclang()]. *)
Definition stopSclang (st : State) : State :=
  match sclangProcess st with
  | Some h =>
      if isLive st then
        let st := logLine (str "[SuperCollider] Stopping sclang...") st in
        let st := kill (killDelivers env h) h st in
        let st := setProcess None st in
        logLine (str "[SuperCollider] sclang stopped") st
      else st
  | None => st
  end.

(** [sendCode(code)]. *)
Definition sendCode (c : jsstring) (st : State) : State :=
  match sclangProcess st, deref st with
  | Some h, Some p =>
      match stdin p with
      | None => showErrorMessage (str "sclang is not running") st
      | Some _ =>
          let cleanCode := trim c in
          if negb (truthy cleanCode) then st
          else
            let st := postAppendLine
              (NL ++ str "-> " ++ firstLine cleanCode
                  ++ (if includesLF cleanCode then str "..." else [])) st in
            write h (cleanCode ++ [ESC]) st
      end
  | _, _ => showErrorMessage (str "sclang is not running") st
  end.

(** [executeCode(code)]. *)
Definition executeCode (c : jsstring) (st : State) : State :=
  if negb (isLive st) then
    let (ok, st) := startSclang true st in
    if negb ok then st
    else setTimeout 1000 c st
  else sendCode c st.

(** [executeBlockCommand(editor)]; an exception of [lineAt] ends the
    command before anything is executed. *)
Definition executeBlockCommand (ed : TextEditor) (st : State) : State :=
  match chosenFragment ed with
  | Some c => executeCode c st
  | None => st
  end.

Definition bootServer : State -> State := executeCode (str "s.boot;").
Definition rebootServer : State -> State := executeCode (str "s.reboot;").
Definition killServer : State -> State := executeCode (str "s.quit;").
Definition stopAllSounds : State -> State := executeCode (str "CmdPeriod.run;").

(** *** Observers wired by [spawnProcess] *)

(** [proc.on('error', ...)] of the process [pid]. *)
Definition onError (pid : nat) (err : SpawnError) (st : State) : State :=
  match heap st !! pid with
  | None => st
  | Some p =>
      let st := logLine (str "[SuperCollider] Error spawning " ++ path p
                           ++ str ": " ++ message err) st in
      if bool_decide (path p = str "sclang") && fallbackToExe p
         && (bool_decide (platform env = str "linux")
             || bool_decide (platform env = str "win32"))
      then
        let st := logLine (str "[SuperCollider] Attempting fallback to sclang.exe...") st in
        match spawnThrows env (str "sclang.exe") with
        | Some _ => st
        | None =>
            let (proc, st) := spawnProcess (str "sclang.exe") (fallbackToExe p) st in
            setProcess (Some proc) st
        end
      else
        let st := showErrorMessage
          (str "Failed to start sclang (" ++ path p ++ str "): " ++ message err
             ++ str ". Check supercollider.sclangPath setting.") st in
        setProcess None st
  end.

(** [proc.on('exit', ...)]; the code is [null] after a signal. *)
Definition onExit (pid : nat) (exitCode : option Z) (st : State) : State :=
  match heap st !! pid with
  | None => st
  | Some _ =>
      let st := logLine (str "[SuperCollider] sclang exited with code "
                           ++ match exitCode with
                              | Some z => ofInt z
                              | None => str "null"
                              end) st in
      setProcess None st
  end.

(** [proc.stdout.on('data', ...)] and [proc.stderr.on('data', ...)]. *)
Definition onData (pid : nat) (text : jsstring) (st : State) : State :=
  match heap st !! pid with
  | None => st
  | Some _ => postAppend text st
  end.

(** The [k]-th pending timer elapses and its callback runs. *)
Definition onTimer (k : nat) (st : State) : State :=
  match timers st !! k with
  | None => st
  | Some (_, c) => sendCode c (setTimers (delete k (timers st)) st)
  end.

(** The [supercollider.startSclang] command. *)
Definition startCommand (st : State) : State :=
  postShow (snd (startSclang true st)).

(** *** The extension as a transition system

    What can happen to the extension after activation: one of its commands
    is invoked, an observer of a spawned process is called, or a pending
    timer elapses. *)
Inductive Event :=
| ExecuteBlock (ed : TextEditor)
| BootServer
| RebootServer
| KillServer
| StopAllSounds
| StartSclang
| StopSclang
| ProcError (pid : nat) (err : SpawnError)
| ProcExit (pid : nat) (exitCode : option Z)
| ProcData (pid : nat) (text : jsstring)
| TimerElapsed (k : nat).

Definition step (e : Event) (st : State) : State :=
  match e with
  | ExecuteBlock ed => executeBlockCommand ed st
  | BootServer => bootServer st
  | RebootServer => rebootServer st
  | KillServer => killServer st
  | StopAllSounds => stopAllSounds st
  | StartSclang => startCommand st
  | StopSclang => stopSclang st
  | ProcError pid err => onError pid err st
  | ProcExit pid exitCode => onExit pid exitCode st
  | ProcData pid text => onData pid text st
  | TimerElapsed k => onTimer k st
  end.

Definition run (es : list Event) (st : State) : State :=
  fold_left (fun st e => step e st) es st.

End Supervisor.

(** The handle, when set, refers to a process that has not been killed
    and has its input stream. *)
Definition handleLive (st : State) : Prop :=
  match sclangProcess st with
  | None => True
  | Some h =>
      exists p, heap st !! h = Some p /\ killed p = false /\ is_Some (stdin p)
  end.




(** ** Language server: the SuperCollider mode

    The mode of the language server computes the word at a position,
    completion items and hover texts.  The text document it works on
    belongs to the language-server library, so the functions below take its
    operations as parameters. *)

Module ScdMode.

(** [SC_KEYWORDS]. *)
Definition SC_KEYWORDS : list jsstring :=
  map str [
    "var"; "arg"; "classvar"; "const"; "if"; "while"; "for"; "forBy"; "do";
    "loop"; "case"; "switch"; "collect"; "select"; "reject"; "detect";
    "any"; "every"; "true"; "false"; "nil"; "inf"; "pi"; "this"; "super";
    "thisProcess"; "thisThread"; "thisFunction"; "thisFunctionDef";
    "thisMethod" ]%string.

(** [SC_CLASSES]. *)
Definition SC_CLASSES : list jsstring :=
  map str [
    "SinOsc"; "Saw"; "Pulse"; "LFSaw"; "LFPulse"; "LFNoise0"; "LFNoise1";
    "LFNoise2"; "WhiteNoise"; "PinkNoise"; "BrownNoise"; "ClipNoise";
    "GrayNoise"; "Dust"; "Dust2"; "Impulse"; "Blip"; "LPF"; "HPF"; "BPF";
    "BRF"; "RLPF"; "RHPF"; "Resonz"; "Ringz"; "FreeVerb"; "GVerb";
    "AllpassN"; "AllpassL"; "AllpassC"; "CombN"; "CombL"; "CombC"; "DelayN";
    "DelayL"; "DelayC"; "Pan2"; "Balance2"; "LinPan2"; "Splay"; "EnvGen";
    "Env"; "Line"; "XLine"; "Linen"; "PlayBuf"; "RecordBuf"; "BufRd";
    "BufWr"; "Buffer"; "Out"; "In"; "LocalIn"; "LocalOut"; "ReplaceOut";
    "XOut"; "Mix"; "Limiter"; "Compander"; "Normalizer"; "MouseX"; "MouseY";
    "MouseButton"; "Lag"; "Lag2"; "Lag3"; "Ramp"; "VarLag"; "Decay";
    "Decay2"; "Integrator"; "LeakDC"; "Free"; "FreeSelf"; "PauseSelf";
    "Done"; "FreeSelfWhenDone"; "Server"; "ServerOptions"; "SynthDef";
    "Synth"; "Group"; "Bus"; "Pbind"; "Pseq"; "Prand"; "Pxrand"; "Pwrand";
    "Pshuf"; "Pwhite"; "Pexprand"; "Pgauss"; "Plprand"; "Phprand";
    "Pmeanrand"; "Pn"; "Pdef"; "Ppar"; "Ptpar"; "Pgpar"; "Pchain"; "Pkey";
    "Pfunc"; "Prout"; "Plazy"; "Pcollect"; "Pselect"; "Preject"; "Pstutter";
    "Pdup"; "Place"; "Ppatlace"; "Pswitch"; "Pswitch1"; "EventStreamPlayer";
    "Routine"; "Task"; "Array"; "List"; "LinkedList"; "Set"; "IdentitySet";
    "Dictionary"; "IdentityDictionary"; "Event"; "Environment";
    "TempoClock"; "SystemClock"; "AppClock"; "Window"; "View"; "Slider";
    "Knob"; "Button"; "TextField"; "StaticText"; "NumberBox"; "FreqScope";
    "Stethoscope"; "ServerMeter"; "MIDIClient"; "MIDIIn"; "MIDIOut";
    "MIDIFunc"; "MIDIdef"; "NetAddr"; "OSCFunc"; "OSCdef"; "String";
    "Symbol"; "Float"; "Integer"; "Boolean"; "Nil"; "Object"; "Function";
    "Class"; "Signal"; "Wavetable"; "FloatArray"; "Int8Array"; "Int16Array";
    "Int32Array"; "File"; "PathName"; "Platform"; "Archive"; "Score";
    "Point"; "Rect"; "Color"; "Pen"; "Condition"; "Semaphore"; "FlowLayout";
    "VLayout"; "HLayout" ]%string.

(** [SC_METHODS]. *)
Definition SC_METHODS : list jsstring :=
  map str [
    "play"; "stop"; "free"; "release"; "set"; "get"; "ar"; "kr"; "ir"; "tr";
    "new"; "newClear"; "newFrom"; "copy"; "deepCopy"; "add"; "addAll";
    "remove"; "removeAt"; "pop"; "push"; "at"; "put"; "atFail"; "first";
    "last"; "size"; "isEmpty"; "do"; "collect"; "select"; "reject";
    "detect"; "any"; "every"; "sum"; "mean"; "maxItem"; "minItem"; "sort";
    "reverse"; "midicps"; "cpsmidi"; "midiratio"; "ratiomidi"; "ampdb";
    "dbamp"; "linlin"; "linexp"; "explin"; "expexp"; "lincurve"; "curvelin";
    "clip"; "wrap"; "fold"; "round"; "trunc"; "ceil"; "floor"; "abs"; "neg";
    "rand"; "rand2"; "rrand"; "exprand"; "bilinrand"; "linrand"; "wait";
    "yield"; "value"; "valueEnvir"; "valueArray"; "postln"; "post"; "postf";
    "debug"; "trace"; "asString"; "asSymbol"; "asInteger"; "asFloat";
    "asArray"; "dup"; "blend"; "series"; "geom"; "scope"; "plot"; "gui";
    "asStream"; "embedInStream"; "reset"; "next"; "nextN"; "all" ]%string.

(** [/[a-zA-Z0-9_]/.test(c)] for a string [c] of one code unit. *)
Definition isWordUnit (c : N) : bool :=
  ((97 <=? c) && (c <=? 122) || (65 <=? c) && (c <=? 90)
   || (48 <=? c) && (c <=? 57) || (c =? 95))%N.

(** [/[a-zA-Z0-9_~]/.test(c)]. *)
Definition isWordUnitOrTilde (c : N) : bool :=
  isWordUnit c || (c =? 126)%N.

(** [re.test(text.charAt(i))]: out of range [charAt] gives the empty
    string, on which the test fails. *)
Definition testAt (re : N -> bool) (text : jsstring) (i : nat) : bool :=
  match text !! i with
  | Some c => re c
  | None => false
  end.

(** [while (start > 0 && /[a-zA-Z0-9_~]/.test(text.charAt(start - 1)))
    start--]. *)
Fixpoint wordStart (text : jsstring) (start : nat) : nat :=
  match start with
  | O => O
  | S j => if testAt isWordUnitOrTilde text j then wordStart text j else start
  end.

(** [while (end < text.length && /[a-zA-Z0-9_]/.test(text.charAt(end)))
    end++], with [rest] the text from index [end] on. *)
Fixpoint wordEnd (rest : jsstring) (end_ : nat) : nat :=
  match rest with
  | [] => end_
  | c :: rest' => if isWordUnit c then wordEnd rest' (S end_) else end_
  end.

Record Word := mkWord { word : jsstring; start : nat; end_ : nat }.

(** [s.toLowerCase()] for a string of ASCII code units.  The strings the
    mode lowers are the table entries and the word at the cursor, which
    hold ASCII code units only. *)
Definition toLowerCase (s : jsstring) : jsstring :=
  map (fun c => if (65 <=? c) && (c <=? 90) then c + 32 else c)%N s.

(** [s.startsWith(p)]. *)
Fixpoint startsWith (s p : jsstring) {struct p} : bool :=
  match p with
  | [] => true
  | c :: p' =>
      match s with
      | [] => false
      | d :: s' => N.eqb d c && startsWith s' p'
      end
  end.

Inductive CompletionItemKind := Keyword | ClassKind | Method.

Record CompletionItem (DocValue : Type) := mkItem
  { label : jsstring;
    kind : CompletionItemKind;
    detail : jsstring;
    documentation : option DocValue }.

Record CompletionList (DocValue : Type) := mkList
  { isIncomplete : bool; items : list (CompletionItem DocValue) }.

(** A hover result: the markdown value and the range, as two positions. *)
Record Hover (DocValue : Type) := mkHover
  { value : DocValue; range_start : Position; range_end : Position }.

Arguments mkItem {DocValue}.
Arguments label {DocValue}.
Arguments kind {DocValue}.
Arguments detail {DocValue}.
Arguments documentation {DocValue}.
Arguments mkList {DocValue}.
Arguments isIncomplete {DocValue}.
Arguments items {DocValue}.
Arguments mkHover {DocValue}.
Arguments value {DocValue}.
Arguments range_start {DocValue}.
Arguments range_end {DocValue}.

Section Mode.

(** The text document of the library. *)
Variable Document : Type.
Variable getText : Document -> jsstring.
Variable offsetAt : Document -> Position -> nat.
Variable positionAt : Document -> nat -> Position.

(** The three documentation tables: [TABLE[key]] for any string [key],
    [None] for [undefined], and the truthiness of a value read. *)
Variable DocValue : Type.
Variable KEYWORD_DOCS CLASS_DOCS METHOD_DOCS : jsstring -> option DocValue.
Variable truthyDoc : DocValue -> bool.

Definition getWordAtPosition (document : Document) (position : Position) : Word :=
  let text := getText document in
  let offset := offsetAt document position in
  let start := wordStart text offset in
  let end_ := wordEnd (drop offset text) offset in
  mkWord (substring text (Z.of_nat start) (Z.of_nat end_)) start end_.

(** One of the three loops of [doComplete]: every entry of [table] whose
    lower-case form starts with [wordLower] is pushed onto [items]. *)
Definition pushMatching
    (table : list jsstring) (k : CompletionItemKind) (d : jsstring)
    (docs : jsstring -> option DocValue) (wordLower : jsstring)
    (items : list (CompletionItem DocValue)) : list (CompletionItem DocValue) :=
  fold_left
    (fun items entry =>
       if startsWith (toLowerCase entry) wordLower
       then items ++ [mkItem entry k d (docs entry)]
       else items)
    table items.

Definition doComplete (document : Document) (position : Position)
  : CompletionList DocValue :=
  let w := getWordAtPosition document position in
  let wordLower := toLowerCase (word w) in
  let items := [] in
  let items := pushMatching SC_KEYWORDS Keyword (str "SuperCollider keyword")
                 KEYWORD_DOCS wordLower items in
  let items := pushMatching SC_CLASSES ClassKind (str "SuperCollider class")
                 CLASS_DOCS wordLower items in
  let items := pushMatching SC_METHODS Method (str "SuperCollider method")
                 METHOD_DOCS wordLower items in
  mkList false items.

(** [if (TABLE[word])]: the value read, when it is truthy. *)
Definition truthyEntry (table : jsstring -> option DocValue) (key : jsstring)
  : option DocValue :=
  match table key with
  | Some v => if truthyDoc v then Some v else None
  | None => None
  end.

(** [doHover]; [None] is [null]. *)
Definition doHover (document : Document) (position : Position)
  : option (Hover DocValue) :=
  let w := getWordAtPosition document position in
  if negb (truthy (word w)) then None
  else
    let found (v : DocValue) :=
      Some (mkHover v (positionAt document (start w))
                      (positionAt document (end_ w))) in
    match truthyEntry KEYWORD_DOCS (word w) with
    | Some v => found v
    | None =>
        match truthyEntry CLASS_DOCS (word w) with
        | Some v => found v
        | None =>
            match truthyEntry METHOD_DOCS (word w) with
            | Some v => found v
            | None => None
            end
        end
    end.

End Mode.

Arguments getWordAtPosition {Document}.
Arguments pushMatching {DocValue}.
Arguments doComplete {Document} _ _ {DocValue}.
Arguments truthyEntry {DocValue}.
Arguments doHover {Document} _ _ _ {DocValue}.

End ScdMode.

(** The same mode as the file without hovering has it: the word ends at
    the cursor and the items carry no documentation.  The three tables are
    the same. *)
Module Part001.

Section Mode.

Variable Document : Type.
Variable getText : Document -> jsstring.
Variable offsetAt : Document -> Position -> nat.

(** The result has no [end] in this version; the field repeats the
    offset. *)
Definition getWordAtPosition (document : Document) (position : Position)
  : ScdMode.Word :=
  let text := getText document in
  let offset := offsetAt document position in
  let start := ScdMode.wordStart text offset in
  ScdMode.mkWord (substring text (Z.of_nat start) (Z.of_nat offset)) start offset.

Definition pushMatching
    (table : list jsstring) (k : ScdMode.CompletionItemKind) (d : jsstring)
    (wordLower : jsstring) (items : list (ScdMode.CompletionItem Empty_set))
  : list (ScdMode.CompletionItem Empty_set) :=
  fold_left
    (fun items entry =>
       if ScdMode.startsWith (ScdMode.toLowerCase entry) wordLower
       then items ++ [ScdMode.mkItem entry k d None]
       else items)
    table items.

Definition doComplete (document : Document) (position : Position)
  : ScdMode.CompletionList Empty_set :=
  let w := getWordAtPosition document position in
  let wordLower := ScdMode.toLowerCase (ScdMode.word w) in
  let items := [] in
  let items := pushMatching ScdMode.SC_KEYWORDS ScdMode.Keyword
                 (str "SuperCollider keyword") wordLower items in
  let items := pushMatching ScdMode.SC_CLASSES ScdMode.ClassKind
                 (str "SuperCollider class") wordLower items in
  let items := pushMatching ScdMode.SC_METHODS ScdMode.Method
                 (str "SuperCollider method") wordLower items in
  ScdMode.mkList false items.

End Mode.

Arguments getWordAtPosition {Document}.
Arguments doComplete {Document}.

End Part001.

(** [p'] is a later state of the process object [p]: the captured
    variables are the same, a kill is never undone, and the input stream
    has only received more chunks. *)
Definition laterProcess (p p' : ChildProcess) : Prop :=
  path p' = path p
  /\ fallbackToExe p' = fallbackToExe p
  /\ (killed p = true -> killed p' = true)
  /\ match stdin p, stdin p' with
     | Some w, Some w' => w `prefix_of` w'
     | None, None => True
     | _, _ => False
     end.

(** [st'] extends [st]: the two channels and the notifications have only
    been appended to, and every process object is still there, in a later
    state. *)
Definition extends (st st' : State) : Prop :=
  sclangOutput st `prefix_of` sclangOutput st'
  /\ postWindowOutput st `prefix_of` postWindowOutput st'
  /\ errorMessages st `prefix_of` errorMessages st'
  /\ forall h p, heap st !! h = Some p ->
       exists p', heap st' !! h = Some p' /\ laterProcess p p'.

(** A chunk as [sendCode] writes it: a trimmed fragment that is not empty,
    followed by the escape code unit. *)
Definition commandChunk (chunk : jsstring) : Prop :=
  exists c, trim c <> [] /\ chunk = trim c ++ [ESC].

Definition chunksWellFormed (st : State) : Prop :=
  forall h p w, heap st !! h = Some p -> stdin p = Some w ->
                Forall commandChunk w.

(** Concrete surroundings and documents for the examples. *)
Definition linuxEnv : Env :=
  mkEnv (str "linux") None (fun _ => None) (fun _ => true).

Definition doc1 (s : string) : TextDocument := mkDocument [str s] NL.

Definition cursorAt (d : TextDocument) (l c : nat) : TextEditor :=
  mkEditor d (mkSelection (mkPosition l c) (mkPosition l c)).

(** A document of two lines with a selection that runs backwards across
    the line break. *)
Definition twoLines : TextDocument :=
  mkDocument [str "a = 1;"; str "  b = 2;"] NL.

Definition acrossLines : TextEditor :=
  mkEditor twoLines (mkSelection (mkPosition 1 3) (mkPosition 0 4)).

(** A documentation table with one entry, and the positions of a
    document of one line, for the examples of the language server. *)
Definition sampleDocs (key : jsstring) : option jsstring :=
  if bool_decide (key = str "SinOsc") then Some (str "**SinOsc** - Sine wave oscillator")
  else None.

Definition noDocs (key : jsstring) : option jsstring := None.

Definition linePositionAt (d : TextDocument) (offset : nat) : Position :=
  mkPosition 0 offset.

(** Surroundings in which no [kill()] delivers its signal. *)
Definition goneEnv : Env :=
  mkEnv (str "linux") None (fun _ => None) (fun _ => false).

(** Surroundings in which every [spawn] throws. *)
Definition brokenEnv : Env :=
  mkEnv (str "linux") None (fun _ => Some (str "TypeError")) (fun _ => true).

(** The state after a first successful [startSclang]. *)
Definition running : State := snd (startSclang linuxEnv true initial).

(** Two spawn errors: permission denied and executable not found. *)
Definition permissionDenied : SpawnError :=
  mkSpawnError (str "EACCES") (str "spawn sclang EACCES").

Definition notFound : SpawnError :=
  mkSpawnError (str "ENOENT") (str "spawn sclang ENOENT").

(** ** Parentheses *)

Definition isParen (c : N) : bool := N.eqb c LPAREN || N.eqb c RPAREN.

(** Strings whose parentheses are all matched. *)
Inductive Balanced : jsstring -> Prop :=
| Balanced_nil : Balanced []
| Balanced_other c s : isParen c = false -> Balanced s -> Balanced (c :: s)
| Balanced_group s1 s2 :
    Balanced s1 -> Balanced s2 -> Balanced (LPAREN :: s1 ++ RPAREN :: s2).

(** The pair the specification's testable property names: the text of the
    outermost parenthesis pair that encloses [offset], found by trying every
    opening parenthesis from the left.  [closeOf rest d] is the length of the
    shortest prefix of [rest] that closes [d] open parentheses. *)
Fixpoint closeOf (rest : jsstring) (d : nat) : option nat :=
  match rest with
  | [] => None
  | c :: rest' =>
      if N.eqb c LPAREN then S <$> closeOf rest' (S d)
      else if N.eqb c RPAREN then
        match d with
        | O => None
        | S O => Some 1%nat
        | S d' => S <$> closeOf rest' d'
        end
      else S <$> closeOf rest' d
  end.

Definition pairAt (text : jsstring) (s : nat) : option nat :=
  match drop s text with
  | c :: rest => if N.eqb c LPAREN then S <$> closeOf rest 1 else None
  | [] => None
  end.

Definition encloses (text : jsstring) (offset s : nat) : bool :=
  match pairAt text s with
  | Some n => Nat.ltb s offset && Nat.ltb offset (s + n)
  | None => false
  end.

Definition outermostPair (text : jsstring) (offset : nat) : option jsstring :=
  match List.find (encloses text offset) (seq 0 (length text)) with
  | Some s => (fun n => take n (drop s text)) <$> pairAt text s
  | None => None
  end.

(** ** Properties of the block locator *)

Example outer1 : outermostPair (str "(a(b)c)") 3 = Some (str "(a(b)c)").
Proof. vm_compute. reflexivity. Qed.
Example scan1 : findCodeBlock (doc1 "(a(b)c)") (mkPosition 0 3) = Some (str "(b)").
Proof. vm_compute. reflexivity. Qed.

Lemma isParen_false c :
  isParen c = false -> N.eqb c LPAREN = false /\ N.eqb c RPAREN = false.
Proof. unfold isParen. intros H. apply orb_false_elim in H. exact H. Qed.

Lemma scanBackward_eq text i d :
  scanBackward text i d =
  let next d' := match i with O => -1 | S j => scanBackward text j d' end in
  match charAt text i with
  | Some c =>
      if N.eqb c RPAREN then next (d + 1)
      else if N.eqb c LPAREN then
        if d =? 0 then Z.of_nat i else next (d - 1)
      else next d
  | None => next d
  end.
Proof. destruct i; reflexivity. Qed.

(** One iteration of the backward loop at index [S j], by the code unit
    found there. *)
Lemma scanBackward_close text j d :
  text !! S j = Some RPAREN ->
  scanBackward text (S j) d = scanBackward text j (d + 1).
Proof. intros H. rewrite scanBackward_eq. unfold charAt. rewrite H. reflexivity. Qed.

Lemma scanBackward_open text j d :
  text !! S j = Some LPAREN -> d <> 0 ->
  scanBackward text (S j) d = scanBackward text j (d - 1).
Proof.
  intros H Hd. rewrite scanBackward_eq. unfold charAt. rewrite H. cbn.
  destruct (Z.eqb_spec d 0); [contradiction | reflexivity].
Qed.

Lemma scanBackward_other text j d c :
  text !! S j = Some c -> isParen c = false ->
  scanBackward text (S j) d = scanBackward text j d.
Proof.
  intros H Hc. apply isParen_false in Hc as [Ho Hcl].
  rewrite scanBackward_eq. unfold charAt. rewrite H. cbn.
  rewrite Hcl, Ho. reflexivity.
Qed.

Lemma scanBackward_found text i :
  text !! i = Some LPAREN -> scanBackward text i 0 = Z.of_nat i.
Proof. intros H. rewrite scanBackward_eq. unfold charAt. rewrite H. reflexivity. Qed.

(** A start offset reported by the backward loop is the index of an
    opening parenthesis at or before the cursor. *)
Lemma scanBackward_result text i d :
  0 <= scanBackward text i d ->
  exists j, scanBackward text i d = Z.of_nat j /\ (j <= i)%nat
            /\ text !! j = Some LPAREN.
Proof.
  revert d. induction i as [|i IH]; intros d; rewrite scanBackward_eq; unfold charAt; cbn zeta.
  - destruct (text !! 0%nat) as [c|] eqn:E; [|lia].
    destruct (N.eqb_spec c RPAREN); [lia|].
    destruct (N.eqb_spec c LPAREN); [|lia].
    destruct (d =? 0); [|lia]. intros _. exists 0%nat. subst c. auto.
  - destruct (text !! S i) as [c|] eqn:E.
    + destruct (N.eqb_spec c RPAREN).
      { intros H. destruct (IH _ H) as (j & -> & Hj & Hl). exists j. auto with lia. }
      destruct (N.eqb_spec c LPAREN).
      { destruct (d =? 0).
        - intros _. exists (S i). subst c. auto.
        - intros H. destruct (IH _ H) as (j & -> & Hj & Hl). exists j. auto with lia. }
      intros H. destruct (IH _ H) as (j & -> & Hj & Hl). exists j. auto with lia.
    + intros H. destruct (IH _ H) as (j & -> & Hj & Hl). exists j. auto with lia.
Qed.

(** The backward loop steps over a balanced stretch of text and leaves the
    depth as it found it. *)
Lemma scanBackward_balanced a :
  Balanced a ->
  forall pre rest d, 0 <= d -> pre <> [] ->
    scanBackward (pre ++ a ++ rest) (length pre + length a - 1) d
    = scanBackward (pre ++ a ++ rest) (length pre - 1) d.
Proof.
  induction 1 as [|c s Hc Hs IH|s1 s2 H1 IH1 H2 IH2]; intros pre rest d Hd Hpre.
  - cbn. f_equal. lia.
  - assert (Hl : (0 < length pre)%nat) by (destruct pre; [contradiction | cbn; lia]).
    specialize (IH (pre ++ [c]) rest d Hd).
    rewrite <- !app_assoc in IH. cbn [app] in IH.
    rewrite length_app in IH. cbn [length] in IH.
    change ((c :: s) ++ rest) with (c :: s ++ rest).
    replace (length pre + length (c :: s) - 1)%nat
      with (length pre + 1 + length s - 1)%nat by (cbn; lia).
    rewrite IH by (destruct pre; discriminate).
    replace (length pre + 1 - 1)%nat with (S (length pre - 1)) by lia.
    apply scanBackward_other with (c := c); [|exact Hc].
    replace (S (length pre - 1)) with (length pre) by lia.
    apply list_lookup_middle. reflexivity.
  - assert (Hl : (0 < length pre)%nat) by (destruct pre; [contradiction | cbn; lia]).
    change ((LPAREN :: s1 ++ RPAREN :: s2) ++ rest)
      with (LPAREN :: (s1 ++ RPAREN :: s2) ++ rest).
    rewrite <- (app_assoc s1).
    change ((RPAREN :: s2) ++ rest) with (RPAREN :: s2 ++ rest).
    (* over [s2] *)
    specialize (IH2 (pre ++ LPAREN :: s1 ++ [RPAREN]) rest d Hd).
    rewrite <- !app_assoc in IH2. cbn [app] in IH2.
    rewrite <- !app_assoc in IH2. cbn [app] in IH2.
    rewrite !length_app in IH2. cbn [length] in IH2.
    rewrite !length_app in IH2. cbn [length] in IH2.
    replace (length pre + length (LPAREN :: s1 ++ RPAREN :: s2) - 1)%nat
      with (length pre + S (length s1 + 1) + length s2 - 1)%nat
      by (cbn; rewrite length_app; cbn; lia).
    rewrite IH2 by (destruct pre; discriminate).
    (* the closing parenthesis *)
    replace (length pre + S (length s1 + 1) - 1)%nat
      with (S (length pre + 1 + length s1 - 1)) by lia.
    rewrite scanBackward_close.
    2:{ replace (S (length pre + 1 + length s1 - 1))
          with (length (pre ++ LPAREN :: s1)) by (rewrite length_app; cbn; lia).
        replace (pre ++ LPAREN :: s1 ++ RPAREN :: s2 ++ rest)
          with ((pre ++ LPAREN :: s1) ++ RPAREN :: s2 ++ rest)
          by (rewrite <- app_assoc; reflexivity).
        apply list_lookup_middle. reflexivity. }
    (* over [s1] *)
    specialize (IH1 (pre ++ [LPAREN]) (RPAREN :: s2 ++ rest) (d + 1)).
    rewrite <- !app_assoc in IH1. cbn [app] in IH1.
    rewrite length_app in IH1. cbn [length] in IH1.
    rewrite IH1 by (try lia; destruct pre; discriminate).
    (* the opening parenthesis *)
    replace (length pre + 1 - 1)%nat with (S (length pre - 1)) by lia.
    rewrite scanBackward_open.
    + f_equal. lia.
    + replace (S (length pre - 1)) with (length pre) by lia.
      apply list_lookup_middle. reflexivity.
    + lia.
Qed.

(** The forward loop steps over a balanced stretch of text as long as at
    least one parenthesis is open. *)
Lemma scanForward_balanced a :
  Balanced a ->
  forall rest i d, 0 < d ->
    scanForward (a ++ rest) i d = scanForward rest (i + Z.of_nat (length a)) d.
Proof.
  induction 1 as [|c s Hc Hs IH|s1 s2 H1 IH1 H2 IH2]; intros rest i d Hd.
  - cbn. f_equal. lia.
  - apply isParen_false in Hc as [Ho Hcl].
    cbn [app scanForward]. rewrite Ho, Hcl, IH by lia.
    f_equal. cbn [length]. lia.
  - cbn [app scanForward]. rewrite N.eqb_refl.
    rewrite <- app_assoc. rewrite IH1 by lia.
    cbn [app scanForward]. change (N.eqb RPAREN LPAREN) with false.
    rewrite N.eqb_refl. cbn zeta.
    destruct (Z.eqb_spec (d + 1 - 1) 0); [lia|].
    rewrite IH2 by lia. f_equal; [|lia].
    cbn [length]. rewrite length_app. cbn [length]. lia.
Qed.

Lemma count_cons c x s :
  count c (x :: s) = if N.eqb x c then S (count c s) else count c s.
Proof. reflexivity. Qed.

(** An end offset reported by the forward loop: the text read up to it
    ends with a closing parenthesis, and closes exactly the parentheses it
    opens plus the [d] that were open before. *)
Lemma scanForward_result rest :
  forall i d, 0 <= i -> 0 <= scanForward rest i d ->
  exists n, scanForward rest i d = i + Z.of_nat n
            /\ (1 <= n <= length rest)%nat
            /\ last (take n rest) = Some RPAREN
            /\ d + Z.of_nat (count LPAREN (take n rest))
               = Z.of_nat (count RPAREN (take n rest)).
Proof.
  induction rest as [|c rest IH]; intros i d Hi; cbn [scanForward]; [lia|].
  destruct (N.eqb_spec c LPAREN) as [->|Ho].
  - intros H. destruct (IH (i + 1) (d + 1)) as (n & -> & Hn & Hlast & Hcnt); [lia | exact H |].
    exists (S n). cbn [take length]. rewrite last_cons, Hlast, !count_cons.
    change (N.eqb LPAREN LPAREN) with true. change (N.eqb LPAREN RPAREN) with false.
    repeat split; try lia; try reflexivity.
  - destruct (N.eqb_spec c RPAREN) as [->|Hc]; cbn zeta.
    + destruct (Z.eqb_spec (d - 1) 0) as [Hd|Hd].
      * intros _. exists 1%nat.
        change (take 1 (RPAREN :: rest)) with [RPAREN].
        cbn. repeat split; try lia; try reflexivity.
      * intros H. destruct (IH (i + 1) (d - 1)) as (n & -> & Hn & Hlast & Hcnt); [lia | exact H |].
        exists (S n). cbn [take length]. rewrite last_cons, Hlast, !count_cons.
        change (N.eqb RPAREN LPAREN) with false. change (N.eqb RPAREN RPAREN) with true.
        repeat split; try lia; try reflexivity.
    + intros H. destruct (IH (i + 1) d) as (n & -> & Hn & Hlast & Hcnt); [lia | exact H |].
      exists (S n). cbn [take length]. rewrite last_cons, Hlast, !count_cons.
      destruct (N.eqb_spec c LPAREN); [contradiction|].
      destruct (N.eqb_spec c RPAREN); [contradiction|].
      repeat split; try lia; try reflexivity.
Qed.

(** [substring] between two offsets inside the text is the slice between
    them. *)
Lemma substring_slice text (j n : nat) :
  (j + n <= length text)%nat ->
  substring text (Z.of_nat j) (Z.of_nat j + Z.of_nat n) = take n (drop j text).
Proof.
  intros H. unfold substring. cbn zeta.
  rewrite (Z.max_l (Z.of_nat j) 0) by lia.
  rewrite (Z.max_l (Z.of_nat j + Z.of_nat n) 0) by lia.
  rewrite (Z.min_l (Z.of_nat j)) by lia.
  rewrite (Z.min_l (Z.of_nat j + Z.of_nat n)) by lia.
  rewrite Z.min_l, Z.max_r by lia.
  f_equal; [lia|]. f_equal. lia.
Qed.

(** C10. Whenever both loops of [findCodeBlock] succeed (a start offset is
    found and an end offset after it), the fragment returned begins with an
    opening parenthesis, ends with a closing parenthesis, and holds as many
    opening as closing parentheses. *)
Theorem findCodeBlock_scan_shape (d : TextDocument) (p : Position) :
  let startOffset := findStart (getText d) (offsetAt d p) in
  let endOffset := findEnd (getText d) startOffset in
  0 <= startOffset -> startOffset < endOffset ->
  exists block,
    findCodeBlock d p = Some block
    /\ head block = Some LPAREN
    /\ last block = Some RPAREN
    /\ count LPAREN block = count RPAREN block.
Proof.
  intros startOffset endOffset Hs He.
  exists (substring (getText d) startOffset endOffset).
  split.
  { unfold findCodeBlock. fold startOffset. fold endOffset.
    destruct (Z.leb_spec 0 startOffset); [|lia].
    destruct (Z.ltb_spec startOffset endOffset); [|lia]. reflexivity. }
  destruct (scanBackward_result _ _ _ Hs) as (j & Hj & _ & Hopen).
  fold (findStart (getText d) (offsetAt d p)) in Hj. fold startOffset in Hj.
  unfold findEnd in endOffset.
  assert (Hend : endOffset
                 = scanForward (drop (Z.to_nat startOffset) (getText d)) startOffset 0).
  { unfold endOffset. destruct (Z.leb_spec 0 startOffset); [reflexivity | lia]. }
  rewrite Hend in He |- *. clear Hend endOffset.
  rewrite Hj in He |- *. rewrite Nat2Z.id in He |- *.
  destruct (scanForward_result (drop j (getText d)) (Z.of_nat j) 0)
    as (n & Hn & Hlen & Hlast & Hcnt); [lia | lia |].
  rewrite Hn. rewrite length_drop in Hlen.
  rewrite substring_slice by lia.
  repeat split.
  - rewrite head_lookup, lookup_take_lt, lookup_drop by lia.
    rewrite Nat.add_0_r. exact Hopen.
  - exact Hlast.
  - lia.
Qed.

Lemma findCodeBlock_scan_shape_witness :
  exists block,
    findCodeBlock (doc1 "f = (a (b) c);") (mkPosition 0 6) = Some block
    /\ head block = Some LPAREN
    /\ last block = Some RPAREN
    /\ count LPAREN block = count RPAREN block.
Proof.
  apply (findCodeBlock_scan_shape (doc1 "f = (a (b) c);") (mkPosition 0 6));
    vm_compute; congruence.
Defined.

(** C2, as the specification's testable property words it, fails: with the
    cursor on [b] in [(a(b)c)] the outermost enclosing pair is the whole
    text, and the locator returns the inner pair. *)
Lemma findCodeBlock_not_outermost :
  outermostPair (getText (doc1 "(a(b)c)"))
                (offsetAt (doc1 "(a(b)c)") (mkPosition 0 3))
    = Some (str "(a(b)c)")
  /\ chosenFragment (cursorAt (doc1 "(a(b)c)") 0 3) = Some (str "(b)")
  /\ chosenFragment (cursorAt (doc1 "(a(b)c)") 0 3)
     <> outermostPair (getText (doc1 "(a(b)c)"))
                      (offsetAt (doc1 "(a(b)c)") (mkPosition 0 3)).
Proof. vm_compute. repeat split; congruence. Qed.

Lemma isEmpty_cursor p : isEmpty (mkSelection p p) = true.
Proof.
  unfold isEmpty, position_eqb. cbn. rewrite !Nat.eqb_refl. reflexivity.
Qed.

(** C2, amended. With an empty selection and the cursor inside a
    parenthesis pair whose content is balanced on both sides of the cursor
    (so the pair is the innermost one around the cursor), and with a code
    unit other than a parenthesis at the cursor, the backward loop finds
    the pair's opening parenthesis, the forward loop finds the offset after
    its closing parenthesis, and the locator returns the pair's full text,
    both parentheses included. *)
Theorem findCodeBlock_innermost
    (d : TextDocument) (p : Position) (pre a b post : jsstring) (c : N) :
  getText d = pre ++ LPAREN :: a ++ c :: b ++ RPAREN :: post ->
  offsetAt d p = (length pre + 1 + length a)%nat ->
  isParen c = false -> Balanced a -> Balanced b ->
  findStart (getText d) (offsetAt d p) = Z.of_nat (length pre)
  /\ findEnd (getText d) (Z.of_nat (length pre))
     = Z.of_nat (length pre + length (LPAREN :: a ++ c :: b ++ [RPAREN]))
  /\ findCodeBlock d p = Some (LPAREN :: a ++ c :: b ++ [RPAREN])
  /\ chosenFragment (mkEditor d (mkSelection p p))
     = Some (LPAREN :: a ++ c :: b ++ [RPAREN]).
Proof.
  intros Htext Hoff Hc Ha Hb.
  assert (Hstart : findStart (getText d) (offsetAt d p) = Z.of_nat (length pre)).
  { rewrite Htext, Hoff. unfold findStart.
    replace (length pre + 1 + length a)%nat with (S (length pre + length a)) by lia.
    rewrite scanBackward_other with (c := c); [|
      replace (pre ++ LPAREN :: a ++ c :: b ++ RPAREN :: post)
        with ((pre ++ LPAREN :: a) ++ c :: b ++ RPAREN :: post)
        by (rewrite <- app_assoc; reflexivity);
      apply list_lookup_middle; rewrite length_app; cbn; lia | exact Hc].
    pose proof (scanBackward_balanced a Ha (pre ++ [LPAREN])
                  (c :: b ++ RPAREN :: post) 0) as Hbal.
    rewrite <- !app_assoc in Hbal. cbn [app] in Hbal.
    rewrite length_app in Hbal. cbn [length] in Hbal.
    replace (length pre + length a)%nat with (length pre + 1 + length a - 1)%nat by lia.
    rewrite Hbal by (try lia; destruct pre; discriminate).
    replace (length pre + 1 - 1)%nat with (length pre) by lia.
    apply scanBackward_found. apply list_lookup_middle. reflexivity. }
  assert (Hend : findEnd (getText d) (Z.of_nat (length pre))
     = Z.of_nat (length pre + length (LPAREN :: a ++ c :: b ++ [RPAREN]))).
  { rewrite Htext. unfold findEnd.
    destruct (Z.leb_spec 0 (Z.of_nat (length pre))); [|lia].
    rewrite Nat2Z.id, drop_app_length.
    apply isParen_false in Hc as [Ho Hcl].
    cbn [scanForward]. rewrite N.eqb_refl.
    rewrite scanForward_balanced by (assumption || lia).
    cbn [scanForward]. rewrite Ho, Hcl.
    rewrite scanForward_balanced by (assumption || lia).
    cbn [scanForward]. change (N.eqb RPAREN LPAREN) with false.
    rewrite N.eqb_refl. cbn zeta. change (0 + 1 - 1 =? 0) with true. cbn iota.
    cbn [length]. rewrite !length_app. cbn [length]. rewrite length_app.
    cbn [length]. lia. }
  assert (Hblock : findCodeBlock d p = Some (LPAREN :: a ++ c :: b ++ [RPAREN])).
  { unfold findCodeBlock. rewrite Hstart, Hend.
    destruct (Z.leb_spec 0 (Z.of_nat (length pre))); [|lia].
    destruct (Z.ltb_spec (Z.of_nat (length pre))
                (Z.of_nat (length pre + length (LPAREN :: a ++ c :: b ++ [RPAREN]))));
      [|cbn [length] in *; lia].
    cbn [andb]. f_equal. rewrite Nat2Z.inj_add.
    rewrite substring_slice.
    - rewrite Htext, drop_app_length.
      replace (LPAREN :: a ++ c :: b ++ RPAREN :: post)
        with ((LPAREN :: a ++ c :: b ++ [RPAREN]) ++ post).
      + apply take_app_length.
      + cbn. rewrite <- !app_assoc. cbn. rewrite <- !app_assoc. reflexivity.
    - rewrite Htext. cbn [length]. rewrite !length_app. cbn [length].
      rewrite !length_app. cbn [length]. rewrite !length_app. cbn [length]. lia. }
  repeat split; try assumption.
  unfold chosenFragment. cbn [document selection active].
  rewrite isEmpty_cursor, Hblock. reflexivity.
Qed.

Lemma findCodeBlock_innermost_witness :
  findCodeBlock (doc1 "x(a (b) c (d) e)y") (mkPosition 0 8)
  = Some (str "(a (b) c (d) e)").
Proof.
  apply (findCodeBlock_innermost (doc1 "x(a (b) c (d) e)y") (mkPosition 0 8)
           (str "x") (str "a (b) ") (str " (d) e") (str "y") 99%N).
  - reflexivity.
  - reflexivity.
  - reflexivity.
  - vm_compute. apply Balanced_other; [reflexivity|].
    apply Balanced_other; [reflexivity|].
    apply (Balanced_group [98%N] [32%N]);
      repeat (apply Balanced_other; [reflexivity|]); apply Balanced_nil.
  - vm_compute. apply Balanced_other; [reflexivity|].
    apply (Balanced_group [100%N] [32%N; 101%N]);
      repeat (apply Balanced_other; [reflexivity|]); apply Balanced_nil.
Defined.

(** C3, as stated, fails: on a line without parentheses the locator
    returns the line with its surrounding whitespace removed. *)
Lemma findCodeBlock_trims_line :
  lineAt (doc1 "  foo  ") 0 = Some (str "  foo  ")
  /\ findCodeBlock (doc1 "  foo  ") (mkPosition 0 3) = Some (str "foo")
  /\ chosenFragment (cursorAt (doc1 "  foo  ") 0 3) = Some (str "foo")
  /\ chosenFragment (cursorAt (doc1 "  foo  ") 0 3) <> lineAt (doc1 "  foo  ") 0.
Proof. vm_compute. repeat split; congruence. Qed.

(** C3, amended. When the parenthesis scan finds no pair, [findCodeBlock]
    returns the text of the cursor's line with leading and trailing
    whitespace removed; [executeBlockCommand] takes that trimmed text, and
    the raw line only when the trimmed text is empty. *)
Theorem findCodeBlock_line_fallback
    (d : TextDocument) (p : Position) (l : jsstring) :
  let startOffset := findStart (getText d) (offsetAt d p) in
  let endOffset := findEnd (getText d) startOffset in
  ~ (0 <= startOffset /\ startOffset < endOffset) ->
  lineAt d (line p) = Some l ->
  findCodeBlock d p = Some (trim l)
  /\ chosenFragment (mkEditor d (mkSelection p p))
     = Some (if truthy (trim l) then trim l else l).
Proof.
  intros startOffset endOffset Hscan Hline.
  assert (Hblock : findCodeBlock d p = Some (trim l)).
  { unfold findCodeBlock. fold startOffset. fold endOffset. rewrite Hline.
    destruct (Z.leb_spec 0 startOffset); [|reflexivity].
    destruct (Z.ltb_spec startOffset endOffset); [|reflexivity].
    exfalso. apply Hscan. split; assumption. }
  split; [exact Hblock|].
  unfold chosenFragment. cbn [document selection active].
  rewrite isEmpty_cursor, Hblock. cbn [negb].
  destruct (truthy (trim l)); [reflexivity | exact Hline].
Qed.

Lemma findCodeBlock_line_fallback_witness :
  findCodeBlock (doc1 "  x.play;  ") (mkPosition 0 4) = Some (str "x.play;")
  /\ chosenFragment (cursorAt (doc1 "  x.play;  ") 0 4) = Some (str "x.play;").
Proof.
  apply (findCodeBlock_line_fallback (doc1 "  x.play;  ") (mkPosition 0 4)
           (str "  x.play;  ")).
  - vm_compute. intros [_ H]. discriminate H.
  - reflexivity.
Defined.

(** ** Properties of the supervisor *)

(** [kill] touches nothing but the [killed] flag of one process. *)
Lemma kill_frame (b : bool) (h : nat) (st : State) :
  sclangProcess (kill b h st) = sclangProcess st
  /\ timers (kill b h st) = timers st
  /\ errorMessages (kill b h st) = errorMessages st
  /\ sclangOutput (kill b h st) = sclangOutput st
  /\ postWindowOutput (kill b h st) = postWindowOutput st
  /\ length (heap (kill b h st)) = length (heap st).
Proof.
  unfold kill. destruct b; cbn; rewrite ?length_alter; repeat split.
Qed.

(** C7. With a non-empty selection the fragment handed to [executeCode] is
    the selected text itself, as the document returns it. *)
Theorem executeBlockCommand_selection (env : Env) (ed : TextEditor) (st : State) :
  isEmpty (selection ed) = false ->
  chosenFragment ed = Some (getTextIn (document ed) (selection ed))
  /\ executeBlockCommand env ed st
     = executeCode env (getTextIn (document ed) (selection ed)) st.
Proof.
  intros Hsel.
  assert (H : chosenFragment ed = Some (getTextIn (document ed) (selection ed))).
  { unfold chosenFragment. rewrite Hsel. reflexivity. }
  split; [exact H|]. unfold executeBlockCommand. rewrite H. reflexivity.
Qed.

Lemma executeBlockCommand_selection_witness :
  chosenFragment acrossLines = Some (str "1;" ++ NL ++ str "  b")
  /\ executeBlockCommand linuxEnv acrossLines initial
     = executeCode linuxEnv (str "1;" ++ NL ++ str "  b") initial.
Proof.
  apply (executeBlockCommand_selection linuxEnv acrossLines initial).
  reflexivity.
Defined.

(** C8. Without a live handle [stopSclang] leaves the whole state as it
    is: no process is signalled, nothing is logged, nothing is shown. *)
Theorem stopSclang_stopped (env : Env) (st : State) :
  isLive st = false -> stopSclang env st = st.
Proof.
  intros H. unfold stopSclang. rewrite H. destruct (sclangProcess st); reflexivity.
Qed.

Lemma stopSclang_stopped_witness : stopSclang linuxEnv initial = initial.
Proof. apply (stopSclang_stopped linuxEnv initial). reflexivity. Defined.

Lemma sendCode_null (c : jsstring) (st : State) :
  sclangProcess st = None ->
  sendCode c st = showErrorMessage (str "sclang is not running") st.
Proof. intros H. unfold sendCode. rewrite H. reflexivity. Qed.

Lemma isLive_spawned (st : State) (pth : jsstring) (fb : bool) :
  isLive (setProcess (Some (length (heap st)))
            (setHeap (heap st ++ [mkProcess pth fb false (Some [])]) st)) = true.
Proof.
  unfold isLive, deref. cbn [sclangProcess heap setProcess setHeap].
  rewrite list_lookup_middle by reflexivity. reflexivity.
Qed.

(** What [executeCode] does without a live handle when [spawn] returns. *)
Lemma executeCode_stopped (env : Env) (c : jsstring) (st : State) :
  isLive st = false -> spawnThrows env (getSclangPath env) = None ->
  executeCode env c st
  = setTimeout 1000 c
      (postShow
         (logLine (str "[SuperCollider] sclang process spawned, waiting for output...")
            (setProcess (Some (length (heap st)))
               (setHeap (heap st ++ [mkProcess (getSclangPath env) true false (Some [])])
                  (logLine (str "[SuperCollider] Starting sclang: " ++ getSclangPath env)
                     st))))).
Proof.
  intros Hlive Hspawn. unfold executeCode, startSclang.
  rewrite Hlive, Hspawn. reflexivity.
Qed.

(** C9. A send scheduled by [executeCode] outlives [stopSclang]: the timer
    is still pending after the stop, and when it elapses [sendCode] runs
    with the captured fragment; the handle being cleared by then, it reports
    that the interpreter is not running. *)
Theorem stop_keeps_pending_send (env : Env) (c : jsstring) (st : State) :
  isLive st = false -> spawnThrows env (getSclangPath env) = None ->
  let st1 := executeCode env c st in
  let st2 := stopSclang env st1 in
  timers st1 = timers st ++ [(1000, c)]
  /\ timers st2 = timers st ++ [(1000, c)]
  /\ sclangProcess st2 = None
  /\ onTimer (length (timers st)) st2 = sendCode c (setTimers (timers st) st2)
  /\ errorMessages (onTimer (length (timers st)) st2)
     = errorMessages st ++ [str "sclang is not running"].
Proof.
  intros Hlive Hspawn st1 st2.
  assert (E1 : st1 = executeCode env c st) by reflexivity.
  rewrite executeCode_stopped in E1 by assumption.
  assert (Ht1 : timers st1 = timers st ++ [(1000, c)]) by (rewrite E1; reflexivity).
  assert (Hl1 : isLive st1 = true).
  { rewrite E1. unfold isLive, deref. cbn.
    rewrite list_lookup_middle by reflexivity. reflexivity. }
  assert (Hp1 : sclangProcess st1 = Some (length (heap st))) by (rewrite E1; reflexivity).
  assert (He1 : errorMessages st1 = errorMessages st) by (rewrite E1; reflexivity).
  assert (E2 : st2 = logLine (str "[SuperCollider] sclang stopped")
                 (setProcess None
                    (kill (killDelivers env (length (heap st))) (length (heap st))
                       (logLine (str "[SuperCollider] Stopping sclang...") st1)))).
  { unfold st2, stopSclang. rewrite Hp1, Hl1. reflexivity. }
  assert (Ht2 : timers st2 = timers st ++ [(1000, c)]).
  { rewrite E2. cbn [timers logLine setProcess].
    destruct (kill_frame (killDelivers env (length (heap st))) (length (heap st))
                (logLine (str "[SuperCollider] Stopping sclang...") st1))
      as (_ & -> & _). exact Ht1. }
  assert (Hp2 : sclangProcess st2 = None) by (rewrite E2; reflexivity).
  assert (He2 : errorMessages st2 = errorMessages st).
  { rewrite E2. cbn [errorMessages logLine setProcess].
    destruct (kill_frame (killDelivers env (length (heap st))) (length (heap st))
                (logLine (str "[SuperCollider] Stopping sclang...") st1))
      as (_ & _ & -> & _). exact He1. }
  assert (Hfire : onTimer (length (timers st)) st2
                  = sendCode c (setTimers (timers st) st2)).
  { unfold onTimer. rewrite Ht2.
    rewrite list_lookup_middle by reflexivity.
    rewrite delete_middle, app_nil_r. reflexivity. }
  repeat split; try assumption.
  rewrite Hfire, sendCode_null by exact Hp2. cbn. rewrite He2. reflexivity.
Qed.

Lemma stop_keeps_pending_send_witness :
  timers (stopSclang linuxEnv (executeCode linuxEnv (str "1.postln;") initial))
    = [(1000, str "1.postln;")]
  /\ errorMessages
       (onTimer 0 (stopSclang linuxEnv
                     (executeCode linuxEnv (str "1.postln;") initial)))
     = [str "sclang is not running"].
Proof.
  destruct (stop_keeps_pending_send linuxEnv (str "1.postln;") initial)
    as (_ & H2 & _ & _ & H5); [reflexivity | reflexivity |].
  split; [exact H2 | exact H5].
Defined.

Lemma written_heap (st st' : State) :
  heap st' = heap st -> written st' = written st.
Proof. unfold written. intros ->. reflexivity. Qed.

Lemma written_spawn (st st' : State) (pth : jsstring) (fb : bool) :
  heap st' = heap st ++ [mkProcess pth fb false (Some [])] ->
  written st' = written st.
Proof.
  unfold written. intros ->. rewrite map_app, concat_app. cbn.
  apply app_nil_r.
Qed.

(** [sendCode] with a blank fragment touches neither a process nor the
    post window. *)
Lemma sendCode_blank (c : jsstring) (st : State) :
  trim c = [] ->
  heap (sendCode c st) = heap st
  /\ postWindowOutput (sendCode c st) = postWindowOutput st.
Proof.
  intros Hc. unfold sendCode.
  destruct (sclangProcess st) as [h|]; [|split; reflexivity].
  destruct (deref st) as [p|]; [|split; reflexivity].
  destruct (stdin p); [|split; reflexivity].
  rewrite Hc. split; reflexivity.
Qed.

(** C1, as stated, fails: a blank fragment executed without a live handle
    starts the interpreter. *)
Lemma executeCode_blank_spawns :
  trim (str "   ") = [] /\ trim (str "") = []
  /\ isLive initial = false
  /\ heap initial = []
  /\ heap (executeCode linuxEnv (str "   ") initial)
     = [mkProcess (str "sclang") true false (Some [])]
  /\ heap (executeCode linuxEnv (str "") initial)
     = [mkProcess (str "sclang") true false (Some [])]
  /\ heap (executeCode linuxEnv (str "   ") initial) <> heap initial.
Proof. vm_compute. repeat split; try reflexivity. discriminate. Qed.

(** C1, amended. For a fragment that is blank after trimming,
    [executeCode] writes no echo line to the post window and nothing to
    the input of any process, neither at once nor when the send it has
    scheduled runs.  With a live handle it spawns nothing and sets no
    timer, and changes nothing at all when that handle has an input stream.
    Without a live handle (and a [spawn] that returns) it starts the
    interpreter and schedules the send of the fragment after 1000 ms,
    exactly as for any other fragment: the state reached differs from the
    one for another fragment only in the fragment the timer has captured.
    When a timer that has captured the blank fragment elapses, the timer is
    consumed and nothing is echoed or written. *)
Theorem executeCode_blank (env : Env) (c : jsstring) (st : State) :
  trim c = [] ->
  postWindowOutput (executeCode env c st) = postWindowOutput st
  /\ written (executeCode env c st) = written st
  /\ (isLive st = true ->
      heap (executeCode env c st) = heap st
      /\ timers (executeCode env c st) = timers st)
  /\ (forall h p w,
        sclangProcess st = Some h -> heap st !! h = Some p ->
        killed p = false -> stdin p = Some w ->
        executeCode env c st = st)
  /\ (isLive st = false -> spawnThrows env (getSclangPath env) = None ->
      executeCode env c st
      = setTimeout 1000 c
          (postShow
             (logLine (str "[SuperCollider] sclang process spawned, waiting for output...")
                (setProcess (Some (length (heap st)))
                   (setHeap (heap st ++ [mkProcess (getSclangPath env) true false (Some [])])
                      (logLine (str "[SuperCollider] Starting sclang: " ++ getSclangPath env)
                         st)))))
      /\ heap (executeCode env c st)
         = heap st ++ [mkProcess (getSclangPath env) true false (Some [])]
      /\ timers (executeCode env c st) = timers st ++ [(1000, c)]
      /\ (forall c', setTimers (timers st) (executeCode env c' st)
                     = setTimers (timers st) (executeCode env c st))
      /\ postWindowOutput
           (onTimer (length (timers st)) (executeCode env c st))
         = postWindowOutput st
      /\ written (onTimer (length (timers st)) (executeCode env c st))
         = written st
      /\ timers (onTimer (length (timers st)) (executeCode env c st))
         = timers st)
  /\ (forall k delay st',
        timers st' !! k = Some (delay, c) ->
        postWindowOutput (onTimer k st') = postWindowOutput st'
        /\ written (onTimer k st') = written st'
        /\ timers (onTimer k st') = delete k (timers st'))
  /\ (forall st', postWindowOutput (sendCode c st') = postWindowOutput st'
                  /\ written (sendCode c st') = written st').
Proof.
  intros Hc.
  assert (Hsend : forall st', postWindowOutput (sendCode c st') = postWindowOutput st'
                              /\ written (sendCode c st') = written st').
  { intros st'. destruct (sendCode_blank c st' Hc) as [Hh Hp].
    split; [exact Hp | apply written_heap, Hh]. }
  assert (Hsendt : forall st', timers (sendCode c st') = timers st').
  { intros st'. unfold sendCode.
    destruct (sclangProcess st'); [|reflexivity].
    destruct (deref st') as [p|]; [|reflexivity].
    destruct (stdin p); [|reflexivity].
    rewrite Hc. reflexivity. }
  assert (Htimer : forall k delay st',
            timers st' !! k = Some (delay, c) ->
            postWindowOutput (onTimer k st') = postWindowOutput st'
            /\ written (onTimer k st') = written st'
            /\ timers (onTimer k st') = delete k (timers st')).
  { intros k delay st' Hk. unfold onTimer. rewrite Hk.
    destruct (Hsend (setTimers (delete k (timers st')) st')) as [H1 H2].
    rewrite H1, H2, Hsendt. repeat split. }
  destruct (isLive st) eqn:Hlive.
  - assert (E : executeCode env c st = sendCode c st).
    { unfold executeCode. rewrite Hlive. reflexivity. }
    rewrite E. destruct (Hsend st) as [Hp Hw].
    refine (conj Hp (conj Hw (conj _ (conj _ (conj _ (conj Htimer Hsend))))));
      try discriminate.
    + intros _. split; [apply sendCode_blank, Hc | apply Hsendt].
    + intros h p w Hh Hp' _ Hin. unfold sendCode, deref.
      rewrite Hh, Hp', Hin, Hc. reflexivity.
  - destruct (spawnThrows env (getSclangPath env)) as [err|] eqn:Hspawn.
    + assert (E : executeCode env c st
                  = showErrorMessage
                      (str "Failed to start sclang. Make sure SuperCollider is installed and sclangPath is configured.")
                      (logLine (str "[SuperCollider] Failed to start sclang: " ++ err)
                         (logLine (str "[SuperCollider] Starting sclang: " ++ getSclangPath env) st))).
      { unfold executeCode, startSclang. rewrite Hlive, Hspawn. reflexivity. }
      rewrite E.
      refine (conj _ (conj _ (conj _ (conj _ (conj _ (conj Htimer Hsend))))));
        try discriminate; try reflexivity.
      intros h p w Hh Hp' Hk _. exfalso.
      unfold isLive, deref in Hlive. rewrite Hh, Hp', Hk in Hlive. discriminate.
    + assert (Hany : forall c', executeCode env c' st
        = setTimeout 1000 c'
            (postShow
               (logLine (str "[SuperCollider] sclang process spawned, waiting for output...")
                  (setProcess (Some (length (heap st)))
                     (setHeap (heap st ++ [mkProcess (getSclangPath env) true false (Some [])])
                        (logLine (str "[SuperCollider] Starting sclang: " ++ getSclangPath env)
                           st))))))
        by (intros c'; apply executeCode_stopped; assumption).
      assert (Hfire : timers (executeCode env c st) !! length (timers st)
                      = Some (1000, c)).
      { rewrite Hany. cbn [timers setTimeout setTimers].
        apply list_lookup_middle. reflexivity. }
      destruct (Htimer _ _ _ Hfire) as (Ht1 & Ht2 & Ht3).
      refine (conj _ (conj _ (conj _ (conj _ (conj _ (conj Htimer Hsend))))));
        try discriminate.
      * rewrite Hany. reflexivity.
      * apply written_spawn with (pth := getSclangPath env) (fb := true).
        rewrite Hany. reflexivity.
      * intros h p w Hh Hp' Hk _. exfalso.
        unfold isLive, deref in Hlive. rewrite Hh, Hp', Hk in Hlive. discriminate.
      * intros _ _. split; [apply Hany|].
        split; [rewrite Hany; reflexivity|].
        split; [rewrite Hany; reflexivity|].
        split; [intros c'; rewrite !Hany; reflexivity|].
        split; [rewrite Ht1, Hany; reflexivity|].
        split.
        -- rewrite Ht2. apply written_spawn with (pth := getSclangPath env) (fb := true).
           rewrite Hany. reflexivity.
        -- rewrite Ht3, Hany. cbn [timers setTimeout setTimers].
           rewrite delete_middle, app_nil_r. reflexivity.
Qed.

Lemma executeCode_blank_witness :
  postWindowOutput (executeCode linuxEnv (str "   ") initial) = []
  /\ written (executeCode linuxEnv (str "   ") initial) = []
  /\ timers (executeCode linuxEnv (str "   ") initial) = [(1000, str "   ")]
  /\ written (onTimer 0 (executeCode linuxEnv (str "   ") initial)) = [].
Proof.
  destruct (executeCode_blank linuxEnv (str "   ") initial)
    as (H1 & H2 & _ & _ & H5 & _); [reflexivity|].
  destruct H5 as (_ & _ & H7 & _ & _ & H10 & _); [reflexivity | reflexivity |].
  repeat split; assumption.
Defined.

(** C5. With a handle that has an input stream and a fragment that is not
    blank, [sendCode] appends exactly one chunk to that stream, the trimmed
    fragment followed by the escape code unit and nothing after it, and
    leaves every other process alone.  [bootServer] is the execution of the
    literal [s.boot;], so with a live handle the chunk is that literal
    followed by the escape code unit. *)
Theorem sendCode_payload
    (env : Env) (st : State) (h : nat) (p : ChildProcess) (w : list jsstring) :
  sclangProcess st = Some h -> heap st !! h = Some p -> stdin p = Some w ->
  (forall c, trim c <> [] ->
     heap (sendCode c st) !! h
     = Some (mkProcess (path p) (fallbackToExe p) (killed p)
               (Some (w ++ [trim c ++ [ESC]])))
     /\ (forall h', h' <> h -> heap (sendCode c st) !! h' = heap st !! h')
     /\ last (trim c ++ [ESC]) = Some ESC)
  /\ bootServer env = executeCode env (str "s.boot;")
  /\ (killed p = false ->
      heap (bootServer env st) !! h
      = Some (mkProcess (path p) (fallbackToExe p) (killed p)
                (Some (w ++ [str "s.boot;" ++ [ESC]])))).
Proof.
  intros Hh Hp Hin.
  assert (Hsend : forall c, trim c <> [] ->
            sendCode c st
            = write h (trim c ++ [ESC])
                (postAppendLine
                   (NL ++ str "-> " ++ firstLine (trim c)
                       ++ (if includesLF (trim c) then str "..." else [])) st)).
  { intros c Hc. unfold sendCode, deref. rewrite Hh, Hp, Hin.
    destruct (trim c); [contradiction | reflexivity]. }
  assert (Hlookup : forall c, trim c <> [] ->
            heap (sendCode c st) !! h
            = Some (mkProcess (path p) (fallbackToExe p) (killed p)
                      (Some (w ++ [trim c ++ [ESC]])))).
  { intros c Hc. rewrite (Hsend c Hc). cbn [write heap setHeap postAppendLine postAppend].
    rewrite list_lookup_alter_eq, Hp. cbn. rewrite Hin. reflexivity. }
  split; [|split].
  - intros c Hc. split; [exact (Hlookup c Hc)|]. split.
    + intros h' Hne. rewrite (Hsend c Hc).
      cbn [write heap setHeap postAppendLine postAppend].
      apply list_lookup_alter_ne. congruence.
    + apply last_snoc.
  - reflexivity.
  - intros Hk. unfold bootServer, executeCode.
    assert (Hlive : isLive st = true).
    { unfold isLive, deref. rewrite Hh, Hp, Hk. reflexivity. }
    rewrite Hlive. cbn [negb].
    apply (Hlookup (str "s.boot;")). discriminate.
Qed.

Lemma sendCode_payload_witness :
  heap (sendCode (str "  1.postln;  ") running) !! 0%nat
  = Some (mkProcess (str "sclang") true false
            (Some [str "1.postln;" ++ [ESC]]))
  /\ heap (bootServer linuxEnv running) !! 0%nat
     = Some (mkProcess (str "sclang") true false
               (Some [str "s.boot;" ++ [ESC]])).
Proof.
  destruct (sendCode_payload linuxEnv running 0
              (mkProcess (str "sclang") true false (Some [])) [])
    as (H1 & _ & H3); [reflexivity | reflexivity | reflexivity |].
  split.
  - destruct (H1 (str "  1.postln;  ")) as [H _]; [discriminate | exact H].
  - apply H3. reflexivity.
Defined.

(** The error observer when the fallback applies. *)
Lemma onError_eligible
    (env : Env) (pid : nat) (p : ChildProcess) (err : SpawnError) (st : State) :
  heap st !! pid = Some p ->
  spawnThrows env (str "sclang.exe") = None ->
  path p = str "sclang" -> fallbackToExe p = true ->
  platform env = str "linux" \/ platform env = str "win32" ->
  onError env pid err st
  = setProcess (Some (length (heap st)))
      (setHeap (heap st ++ [mkProcess (str "sclang.exe") true false (Some [])])
         (logLine (str "[SuperCollider] Attempting fallback to sclang.exe...")
            (logLine (str "[SuperCollider] Error spawning " ++ path p
                        ++ str ": " ++ message err) st))).
Proof.
  intros Hp Hspawn Hpath Hfb Hplat. unfold onError. rewrite Hp, Hspawn, Hfb.
  rewrite (bool_decide_eq_true_2 _ Hpath). cbn [andb].
  assert (Hb : bool_decide (platform env = str "linux")
               || bool_decide (platform env = str "win32") = true).
  { destruct Hplat as [H|H]; rewrite (bool_decide_eq_true_2 _ H);
      [reflexivity | apply orb_true_r]. }
  rewrite Hb. reflexivity.
Qed.

(** The error observer when the fallback does not apply. *)
Lemma onError_ineligible
    (env : Env) (pid : nat) (p : ChildProcess) (err : SpawnError) (st : State) :
  heap st !! pid = Some p ->
  ~ (path p = str "sclang" /\ fallbackToExe p = true
     /\ (platform env = str "linux" \/ platform env = str "win32")) ->
  onError env pid err st
  = setProcess None
      (showErrorMessage
         (str "Failed to start sclang (" ++ path p ++ str "): " ++ message err
            ++ str ". Check supercollider.sclangPath setting.")
         (logLine (str "[SuperCollider] Error spawning " ++ path p
                     ++ str ": " ++ message err) st)).
Proof.
  intros Hp Hno. unfold onError. rewrite Hp.
  destruct (bool_decide (path p = str "sclang") && fallbackToExe p
            && (bool_decide (platform env = str "linux")
                || bool_decide (platform env = str "win32"))) eqn:E;
    [|reflexivity].
  exfalso. apply Hno.
  apply andb_prop in E as [E Hplat]. apply andb_prop in E as [Hpath Hfb].
  apply bool_decide_eq_true_1 in Hpath.
  apply orb_prop in Hplat.
  repeat split; try assumption.
  destruct Hplat as [H|H]; apply bool_decide_eq_true_1 in H; auto.
Qed.

(** C4, as stated, fails: the fallback is attempted after an error that is
    not a missing executable. *)
Lemma onError_fallback_any_error :
  isNotFound permissionDenied = false
  /\ heap running = [mkProcess (str "sclang") true false (Some [])]
  /\ heap (onError linuxEnv 0 permissionDenied running)
     = [mkProcess (str "sclang") true false (Some []);
        mkProcess (str "sclang.exe") true false (Some [])]
  /\ sclangProcess (onError linuxEnv 0 permissionDenied running) = Some 1%nat.
Proof. vm_compute. repeat split; reflexivity. Qed.

(** C4, amended. After an error of a process started as [sclang], with
    the fallback allowed, on Linux or Windows, whatever the error is, and
    provided the [spawn] call for [sclang.exe] returns, the observer spawns
    exactly one process, [sclang.exe], makes it the handle and surfaces
    nothing; an error of that process spawns nothing more, surfaces the
    failure and clears the handle.  When the path is not [sclang], the
    fallback is not allowed or the platform is another one, the observer
    spawns nothing, surfaces the failure and clears the handle. *)
Theorem onError_fallback
    (env : Env) (pid : nat) (p : ChildProcess) (err : SpawnError) (st : State) :
  heap st !! pid = Some p ->
  (path p = str "sclang" -> fallbackToExe p = true ->
   platform env = str "linux" \/ platform env = str "win32" ->
   spawnThrows env (str "sclang.exe") = None ->
   heap (onError env pid err st)
   = heap st ++ [mkProcess (str "sclang.exe") true false (Some [])]
   /\ sclangProcess (onError env pid err st) = Some (length (heap st))
   /\ errorMessages (onError env pid err st) = errorMessages st
   /\ forall err2,
        heap (onError env (length (heap st)) err2 (onError env pid err st))
        = heap (onError env pid err st)
        /\ sclangProcess
             (onError env (length (heap st)) err2 (onError env pid err st))
           = None
        /\ errorMessages
             (onError env (length (heap st)) err2 (onError env pid err st))
           = errorMessages st
             ++ [str "Failed to start sclang (sclang.exe): " ++ message err2
                   ++ str ". Check supercollider.sclangPath setting."])
  /\ (~ (path p = str "sclang" /\ fallbackToExe p = true
         /\ (platform env = str "linux" \/ platform env = str "win32")) ->
      heap (onError env pid err st) = heap st
      /\ sclangProcess (onError env pid err st) = None
      /\ errorMessages (onError env pid err st)
         = errorMessages st
           ++ [str "Failed to start sclang (" ++ path p ++ str "): "
                 ++ message err
                 ++ str ". Check supercollider.sclangPath setting."]).
Proof.
  intros Hp. split.
  - intros Hpath Hfb Hplat Hspawn.
    rewrite (onError_eligible env pid p err st Hp Hspawn Hpath Hfb Hplat).
    split; [reflexivity|]. split; [reflexivity|]. split; [reflexivity|].
    intros err2.
    rewrite (onError_ineligible env (length (heap st))
               (mkProcess (str "sclang.exe") true false (Some []))).
    + repeat split.
    + cbn [heap setProcess setHeap]. apply list_lookup_middle. reflexivity.
    + cbn [path]. intros [Hno _]. discriminate Hno.
  - intros Hno. rewrite (onError_ineligible env pid p err st Hp Hno).
    repeat split.
Qed.

Lemma onError_fallback_witness :
  heap (onError linuxEnv 0 notFound running)
  = heap running ++ [mkProcess (str "sclang.exe") true false (Some [])]
  /\ heap (onError linuxEnv 1 notFound (onError linuxEnv 0 notFound running))
     = heap (onError linuxEnv 0 notFound running)
  /\ sclangProcess
       (onError linuxEnv 1 notFound (onError linuxEnv 0 notFound running))
     = None.
Proof.
  destruct (onError_fallback linuxEnv 0
              (mkProcess (str "sclang") true false (Some [])) notFound running)
    as [H _]; [reflexivity|].
  destruct H as (H1 & _ & _ & H4);
    [reflexivity | reflexivity | left; reflexivity | reflexivity |].
  destruct (H4 notFound) as (H5 & H6 & _).
  repeat split; assumption.
Defined.

(** ** The handle along every run *)

Lemma handleLive_frame (st st' : State) :
  sclangProcess st' = sclangProcess st -> heap st' = heap st ->
  handleLive st -> handleLive st'.
Proof. unfold handleLive. intros -> ->. trivial. Qed.

Lemma handleLive_null (st : State) : sclangProcess st = None -> handleLive st.
Proof. unfold handleLive. intros ->. exact I. Qed.

Lemma handleLive_spawned (st : State) (hp : list ChildProcess) (pth : jsstring) (fb : bool) :
  heap st = hp ++ [mkProcess pth fb false (Some [])] ->
  sclangProcess st = Some (length hp) ->
  handleLive st.
Proof.
  unfold handleLive. intros -> ->. eexists. split.
  - apply list_lookup_middle. reflexivity.
  - split; [reflexivity | eexists; reflexivity].
Qed.

Lemma handleLive_startSclang (env : Env) (fb : bool) (st : State) :
  handleLive st -> handleLive (snd (startSclang env fb st)).
Proof.
  intros H. unfold startSclang. destruct (isLive st).
  - apply (handleLive_frame st); [reflexivity | reflexivity | exact H].
  - destruct (spawnThrows env (getSclangPath env)).
    + apply (handleLive_frame st); [reflexivity | reflexivity | exact H].
    + apply (handleLive_spawned _ (heap st) (getSclangPath env) fb); reflexivity.
Qed.

Lemma handleLive_stopSclang (env : Env) (st : State) :
  handleLive st -> handleLive (stopSclang env st).
Proof.
  intros H. unfold stopSclang. destruct (sclangProcess st); [|exact H].
  destruct (isLive st); [|exact H]. apply handleLive_null. reflexivity.
Qed.

Lemma handleLive_sendCode (c : jsstring) (st : State) :
  handleLive st -> handleLive (sendCode c st).
Proof.
  intros H. unfold sendCode, deref.
  destruct (sclangProcess st) as [h|] eqn:Hh;
    [|apply (handleLive_frame st); [reflexivity | reflexivity | exact H]].
  destruct (heap st !! h) as [p|] eqn:Hp;
    [|apply (handleLive_frame st); [reflexivity | reflexivity | exact H]].
  destruct (stdin p) as [w|] eqn:Hin;
    [|apply (handleLive_frame st); [reflexivity | reflexivity | exact H]].
  destruct (truthy (trim c)); [|exact H].
  unfold handleLive in H |- *. rewrite Hh in H.
  destruct H as (q & Hq & Hk & _).
  assert (q = p) by congruence. subst q.
  cbn [negb write setHeap postAppendLine postAppend sclangProcess heap].
  rewrite Hh. eexists. split.
  - rewrite list_lookup_alter_eq, Hp. reflexivity.
  - cbn. rewrite Hin. split; [exact Hk | eexists; reflexivity].
Qed.

Lemma handleLive_executeCode (env : Env) (c : jsstring) (st : State) :
  handleLive st -> handleLive (executeCode env c st).
Proof.
  intros H. unfold executeCode.
  destruct (isLive st); cbn [negb]; [apply handleLive_sendCode, H|].
  pose proof (handleLive_startSclang env true st H) as Hs.
  destruct (startSclang env true st) as [ok st']. cbn [snd] in Hs.
  destruct ok; cbn [negb]; [|exact Hs].
  apply (handleLive_frame st'); [reflexivity | reflexivity | exact Hs].
Qed.

Lemma handleLive_onError (env : Env) (pid : nat) (err : SpawnError) (st : State) :
  handleLive st -> handleLive (onError env pid err st).
Proof.
  intros H. unfold onError. destruct (heap st !! pid) as [p|]; [|exact H].
  destruct (bool_decide (path p = str "sclang") && fallbackToExe p
            && (bool_decide (platform env = str "linux")
                || bool_decide (platform env = str "win32"))).
  - destruct (spawnThrows env (str "sclang.exe")).
    + apply (handleLive_frame st); [reflexivity | reflexivity | exact H].
    + apply (handleLive_spawned _ (heap st) (str "sclang.exe") (fallbackToExe p));
        reflexivity.
  - apply handleLive_null. reflexivity.
Qed.

Lemma handleLive_step (env : Env) (e : Event) (st : State) :
  handleLive st -> handleLive (step env e st).
Proof.
  intros H. destruct e; cbn [step].
  - unfold executeBlockCommand. destruct (chosenFragment ed); [|exact H].
    apply handleLive_executeCode, H.
  - apply handleLive_executeCode, H.
  - apply handleLive_executeCode, H.
  - apply handleLive_executeCode, H.
  - apply handleLive_executeCode, H.
  - unfold startCommand.
    apply (handleLive_frame (snd (startSclang env true st)));
      [reflexivity | reflexivity | apply handleLive_startSclang, H].
  - apply handleLive_stopSclang, H.
  - apply handleLive_onError, H.
  - unfold onExit. destruct (heap st !! pid); [|exact H].
    apply handleLive_null. reflexivity.
  - unfold onData. destruct (heap st !! pid); [|exact H].
    apply (handleLive_frame st); [reflexivity | reflexivity | exact H].
  - unfold onTimer. destruct (timers st !! k) as [[delay c]|]; [|exact H].
    apply handleLive_sendCode.
    apply (handleLive_frame st); [reflexivity | reflexivity | exact H].
Qed.

(** Whatever happens after activation, the handle is either null or a
    process that has not been killed and has its input stream: the states
    the extension reaches are "stopped" exactly when the handle is null. *)
Lemma handleLive_run (env : Env) (es : list Event) :
  handleLive (run env es initial).
Proof.
  unfold run.
  assert (H : forall st, handleLive st ->
                handleLive (fold_left (fun st e => step env e st) es st)).
  { induction es as [|e es IH]; intros st Hst; cbn [fold_left]; [exact Hst|].
    apply IH, handleLive_step, Hst. }
  apply H. exact I.
Qed.

Lemma reachable_stopped_iff_null (env : Env) (es : list Event) :
  isLive (run env es initial) = false
  <-> sclangProcess (run env es initial) = None.
Proof.
  pose proof (handleLive_run env es) as H.
  unfold handleLive, isLive, deref in *.
  destruct (sclangProcess (run env es initial)) as [h|].
  - destruct H as (p & -> & -> & _). split; discriminate.
  - split; reflexivity.
Qed.




(** ** More on the block locator *)

Lemma Balanced_app (x y : jsstring) :
  Balanced x -> Balanced y -> Balanced (x ++ y).
Proof.
  induction 1 as [|c s Hc Hs IH|s1 s2 H1 IH1 H2 IH2]; intros Hy; cbn [app].
  - exact Hy.
  - apply Balanced_other; auto.
  - rewrite <- app_assoc. cbn [app]. apply Balanced_group; auto.
Qed.

(** Indices past the end of the text read [undefined] and change nothing:
    the backward loop effectively starts at the last code unit. *)
Lemma scanBackward_clamp (text : jsstring) (i : nat) (d : Z) :
  (length text <= S i)%nat ->
  scanBackward text (S i) d = scanBackward text i d.
Proof.
  intros H. rewrite scanBackward_eq. unfold charAt.
  rewrite (lookup_ge_None_2 text (S i)) by lia. reflexivity.
Qed.

Lemma scanBackward_past_end (text : jsstring) (i : nat) (d : Z) :
  (length text <= i)%nat ->
  scanBackward text i d = scanBackward text (length text - 1) d.
Proof.
  induction i as [|i IH]; intros H.
  - replace (length text - 1)%nat with 0%nat by lia. reflexivity.
  - rewrite scanBackward_clamp by lia.
    destruct (Nat.eq_dec (length text) (S i)) as [E|E].
    + f_equal. lia.
    + apply IH. lia.
Qed.

Lemma scanBackward_first_other (text : jsstring) (c : N) (d : Z) :
  text !! 0%nat = Some c -> isParen c = false -> scanBackward text 0 d = -1.
Proof.
  intros H Hc. apply isParen_false in Hc as [Ho Hcl].
  rewrite scanBackward_eq. unfold charAt. rewrite H. cbn zeta.
  rewrite Hcl, Ho. reflexivity.
Qed.

Lemma scanBackward_first_open (text : jsstring) (d : Z) :
  text !! 0%nat = Some LPAREN -> d <> 0 -> scanBackward text 0 d = -1.
Proof.
  intros H Hd. rewrite scanBackward_eq. unfold charAt. rewrite H. cbn.
  destruct (Z.eqb_spec d 0); [contradiction | reflexivity].
Qed.

(** Started on the last code unit of a balanced text, the backward loop
    runs off the beginning without a start offset. *)
Lemma scanBackward_balanced_prefix (x : jsstring) :
  Balanced x -> x <> [] ->
  forall rest d, 0 <= d ->
    scanBackward (x ++ rest) (length x - 1) d = -1.
Proof.
  intros Hx Hne rest d Hd. destruct Hx as [|c s Hc Hs|s1 s2 H1 H2];
    [contradiction| |].
  - pose proof (scanBackward_balanced s Hs [c] rest d Hd) as E.
    cbn [app length] in E |- *.
    replace (1 + length s - 1)%nat with (S (length s) - 1)%nat in E by lia.
    rewrite E by discriminate.
    apply scanBackward_first_other with (c := c); [reflexivity | exact Hc].
  - pose proof (scanBackward_balanced s2 H2 (LPAREN :: s1 ++ [RPAREN]) rest d Hd) as E2.
    cbn [app length] in E2. rewrite <- !app_assoc in E2. cbn [app] in E2.
    rewrite length_app in E2. cbn [length] in E2.
    cbn [app length]. rewrite <- app_assoc. cbn [app].
    rewrite length_app. cbn [length].
    replace (S (length s1 + S (length s2)) - 1)%nat
      with (S (length s1 + 1) + length s2 - 1)%nat by lia.
    rewrite E2 by discriminate.
    replace (S (length s1 + 1) - 1)%nat with (S (length s1)) by lia.
    rewrite scanBackward_close.
    2:{ change (LPAREN :: s1 ++ RPAREN :: s2 ++ rest)
          with ((LPAREN :: s1) ++ RPAREN :: s2 ++ rest).
        apply list_lookup_middle. reflexivity. }
    pose proof (scanBackward_balanced s1 H1 [LPAREN] (RPAREN :: s2 ++ rest) (d + 1)) as E1.
    cbn [app length] in E1.
    replace (1 + length s1 - 1)%nat with (length s1) in E1 by lia.
    rewrite E1 by (lia || discriminate).
    apply scanBackward_first_open; [reflexivity | lia].
Qed.

Lemma scanBackward_balanced_upto (text : jsstring) (offset : nat) :
  Balanced (take (S offset) text) -> findStart text offset = -1.
Proof.
  intros Hb. unfold findStart.
  destruct text as [|c0 text'] eqn:Et.
  { rewrite scanBackward_past_end by (cbn; lia). reflexivity. }
  rewrite <- Et in *. assert (Hne : text <> []) by (rewrite Et; discriminate).
  clear Et c0 text'.
  destruct (Nat.le_gt_cases (length text) offset) as [Hge|Hlt].
  - rewrite firstn_all2 in Hb by lia.
    rewrite scanBackward_past_end by lia.
    rewrite <- (app_nil_r text) at 1.
    apply scanBackward_balanced_prefix; [exact Hb | exact Hne | lia].
  - assert (Hlen : length (take (S offset) text) = S offset)
      by (rewrite length_take; lia).
    pose proof (scanBackward_balanced_prefix (take (S offset) text) Hb) as E.
    rewrite Hlen in E. replace (S offset - 1)%nat with offset in E by lia.
    specialize (E ltac:(intros E'; rewrite E' in Hlen; discriminate)
                  (drop (S offset) text) 0 ltac:(lia)).
    rewrite take_drop in E. exact E.
Qed.

(** Without a pair the locator answers with the trimmed line. *)
Lemma findCodeBlock_no_pair (d : TextDocument) (p : Position) (l : jsstring) :
  ~ (0 <= findStart (getText d) (offsetAt d p)
     /\ findStart (getText d) (offsetAt d p)
        < findEnd (getText d) (findStart (getText d) (offsetAt d p))) ->
  lineAt d (line p) = Some l ->
  findCodeBlock d p = Some (trim l).
Proof.
  intros Hscan Hline. unfold findCodeBlock. rewrite Hline.
  destruct (Z.leb_spec 0 (findStart (getText d) (offsetAt d p))); [|reflexivity].
  destruct (Z.ltb_spec (findStart (getText d) (offsetAt d p))
              (findEnd (getText d) (findStart (getText d) (offsetAt d p))));
    [|reflexivity].
  exfalso. apply Hscan. split; assumption.
Qed.

(** X3. When the text from the beginning of the document up to and including
    the code unit at the cursor is balanced (no parentheses at all, or only
    closed groups), no start offset is found and the locator returns the
    trimmed text of the cursor's line.  This includes a cursor placed just
    before the closing parenthesis of an outermost group. *)
Theorem findCodeBlock_balanced_prefix
    (d : TextDocument) (p : Position) (l : jsstring) :
  Balanced (take (S (offsetAt d p)) (getText d)) ->
  lineAt d (line p) = Some l ->
  findStart (getText d) (offsetAt d p) = -1
  /\ findCodeBlock d p = Some (trim l).
Proof.
  intros Hb Hl.
  pose proof (scanBackward_balanced_upto _ _ Hb) as Hs.
  split; [exact Hs|].
  apply findCodeBlock_no_pair; [|exact Hl].
  rewrite Hs. lia.
Qed.

Lemma findCodeBlock_balanced_prefix_witness :
  findCodeBlock (doc1 " f(a b); g ") (mkPosition 0 6) = Some (str "f(a b); g").
Proof.
  apply (findCodeBlock_balanced_prefix (doc1 " f(a b); g ") (mkPosition 0 6)
           (str " f(a b); g ")).
  - vm_compute. apply Balanced_other; [reflexivity|].
    apply Balanced_other; [reflexivity|].
    apply (Balanced_group [97%N; 32%N; 98%N] []);
      repeat (apply Balanced_other; [reflexivity|]); apply Balanced_nil.
  - reflexivity.
Defined.

(** Once the start offset is the opening parenthesis of a pair with
    balanced content, the forward loop ends after the closing parenthesis
    and the pair is the fragment. *)
Lemma findCodeBlock_of_start
    (d : TextDocument) (p : Position) (pre body post : jsstring) :
  getText d = pre ++ LPAREN :: body ++ RPAREN :: post ->
  Balanced body ->
  findStart (getText d) (offsetAt d p) = Z.of_nat (length pre) ->
  findCodeBlock d p = Some (LPAREN :: body ++ [RPAREN])
  /\ chosenFragment (mkEditor d (mkSelection p p))
     = Some (LPAREN :: body ++ [RPAREN]).
Proof.
  intros Htext Hb Hstart.
  assert (Hend : findEnd (getText d) (Z.of_nat (length pre))
     = Z.of_nat (length pre) + Z.of_nat (length (LPAREN :: body ++ [RPAREN]))).
  { rewrite Htext. unfold findEnd.
    destruct (Z.leb_spec 0 (Z.of_nat (length pre))); [|lia].
    rewrite Nat2Z.id, drop_app_length.
    cbn [scanForward]. rewrite N.eqb_refl.
    rewrite scanForward_balanced by (assumption || lia).
    cbn [scanForward]. change (N.eqb RPAREN LPAREN) with false.
    rewrite N.eqb_refl. cbn zeta. change (0 + 1 - 1 =? 0) with true. cbn iota.
    cbn [length]. rewrite length_app. cbn [length]. lia. }
  assert (Hblock : findCodeBlock d p = Some (LPAREN :: body ++ [RPAREN])).
  { unfold findCodeBlock. rewrite Hstart, Hend.
    destruct (Z.leb_spec 0 (Z.of_nat (length pre))); [|lia].
    destruct (Z.ltb_spec (Z.of_nat (length pre))
                (Z.of_nat (length pre)
                 + Z.of_nat (length (LPAREN :: body ++ [RPAREN]))));
      [|cbn [length] in *; lia].
    cbn [andb]. f_equal. rewrite substring_slice.
    - rewrite Htext, drop_app_length.
      replace (LPAREN :: body ++ RPAREN :: post)
        with ((LPAREN :: body ++ [RPAREN]) ++ post)
        by (cbn; rewrite <- app_assoc; reflexivity).
      apply take_app_length.
    - rewrite Htext. cbn [length]. rewrite !length_app. cbn [length].
      rewrite !length_app. cbn [length]. lia. }
  split; [exact Hblock|].
  unfold chosenFragment. cbn [document selection active].
  rewrite isEmpty_cursor, Hblock. reflexivity.
Qed.

(** The start offset when the text between an opening parenthesis and the
    cursor's code unit, both ends included, is balanced. *)
Lemma findStart_after_balanced (pre u rest : jsstring) :
  Balanced u -> u <> [] ->
  findStart (pre ++ LPAREN :: u ++ rest) (length pre + length u)
  = Z.of_nat (length pre).
Proof.
  intros Hu Hne. unfold findStart.
  pose proof (scanBackward_balanced u Hu (pre ++ [LPAREN]) rest 0) as E.
  rewrite <- !app_assoc in E. cbn [app] in E.
  rewrite length_app in E. cbn [length] in E.
  assert (Hl : (0 < length u)%nat) by (destruct u; [contradiction | cbn; lia]).
  replace (length pre + 1 + length u - 1)%nat with (length pre + length u)%nat in E by lia.
  rewrite E by (try lia; destruct pre; discriminate).
  replace (length pre + 1 - 1)%nat with (length pre) by lia.
  apply scanBackward_found. apply list_lookup_middle. reflexivity.
Qed.

(** X1. The pair returned is the one for which the text from just after its
    opening parenthesis up to and including the code unit at the cursor is
    balanced (the rest of its content being balanced too).  With the cursor
    just before the closing parenthesis of an inner group, that is the pair
    around the group, not the group. *)
Theorem findCodeBlock_enclosing
    (d : TextDocument) (p : Position) (pre u v post : jsstring) :
  getText d = pre ++ LPAREN :: u ++ v ++ RPAREN :: post ->
  offsetAt d p = (length pre + length u)%nat ->
  Balanced u -> u <> [] -> Balanced v ->
  findCodeBlock d p = Some (LPAREN :: u ++ v ++ [RPAREN])
  /\ chosenFragment (mkEditor d (mkSelection p p))
     = Some (LPAREN :: u ++ v ++ [RPAREN]).
Proof.
  intros Htext Hoff Hu Hne Hv.
  replace (LPAREN :: u ++ v ++ [RPAREN]) with (LPAREN :: (u ++ v) ++ [RPAREN])
    by (rewrite <- app_assoc; reflexivity).
  apply (findCodeBlock_of_start d p pre (u ++ v) post).
  - rewrite Htext, <- app_assoc. reflexivity.
  - apply Balanced_app; assumption.
  - rewrite Htext, Hoff. apply findStart_after_balanced; assumption.
Qed.

Lemma findCodeBlock_enclosing_witness :
  findCodeBlock (doc1 "(x (y) z)") (mkPosition 0 5) = Some (str "(x (y) z)").
Proof.
  apply (findCodeBlock_enclosing (doc1 "(x (y) z)") (mkPosition 0 5)
           [] (str "x (y)") (str " z") []).
  - reflexivity.
  - reflexivity.
  - vm_compute. apply Balanced_other; [reflexivity|].
    apply Balanced_other; [reflexivity|].
    apply (Balanced_group [121%N] []);
      repeat (apply Balanced_other; [reflexivity|]); apply Balanced_nil.
  - discriminate.
  - vm_compute. repeat (apply Balanced_other; [reflexivity|]). apply Balanced_nil.
Defined.

(** X2. With the cursor immediately before an opening parenthesis whose
    group is closed and balanced, the fragment is that group, whatever
    encloses it. *)
Theorem findCodeBlock_at_open
    (d : TextDocument) (p : Position) (pre body post : jsstring) :
  getText d = pre ++ LPAREN :: body ++ RPAREN :: post ->
  offsetAt d p = length pre ->
  Balanced body ->
  findCodeBlock d p = Some (LPAREN :: body ++ [RPAREN])
  /\ chosenFragment (mkEditor d (mkSelection p p))
     = Some (LPAREN :: body ++ [RPAREN]).
Proof.
  intros Htext Hoff Hb.
  apply (findCodeBlock_of_start d p pre body post); [exact Htext | exact Hb |].
  rewrite Htext, Hoff. apply scanBackward_found.
  apply list_lookup_middle. reflexivity.
Qed.

Lemma findCodeBlock_at_open_witness :
  findCodeBlock (doc1 "(a (b) c)") (mkPosition 0 3) = Some (str "(b)").
Proof.
  apply (findCodeBlock_at_open (doc1 "(a (b) c)") (mkPosition 0 3)
           (str "(a ") (str "b") (str " c)")).
  - reflexivity.
  - reflexivity.
  - vm_compute. repeat (apply Balanced_other; [reflexivity|]). apply Balanced_nil.
Defined.

(** X4. An opening parenthesis that is never closed gives no block: when
    the text after it is balanced up to the cursor and to the end of the
    document, the forward loop reaches the end of the text and the locator
    returns the trimmed text of the cursor's line. *)
Theorem findCodeBlock_unclosed
    (d : TextDocument) (p : Position) (pre u v l : jsstring) :
  getText d = pre ++ LPAREN :: u ++ v ->
  offsetAt d p = (length pre + length u)%nat ->
  Balanced u -> u <> [] -> Balanced v ->
  lineAt d (line p) = Some l ->
  findStart (getText d) (offsetAt d p) = Z.of_nat (length pre)
  /\ findEnd (getText d) (Z.of_nat (length pre)) = -1
  /\ findCodeBlock d p = Some (trim l).
Proof.
  intros Htext Hoff Hu Hne Hv Hl.
  assert (Hstart : findStart (getText d) (offsetAt d p) = Z.of_nat (length pre)).
  { rewrite Htext, Hoff. apply findStart_after_balanced; assumption. }
  assert (Hend : findEnd (getText d) (Z.of_nat (length pre)) = -1).
  { rewrite Htext. unfold findEnd.
    destruct (Z.leb_spec 0 (Z.of_nat (length pre))); [|lia].
    rewrite Nat2Z.id, drop_app_length.
    cbn [scanForward]. rewrite N.eqb_refl.
    rewrite <- (app_nil_r (u ++ v)).
    rewrite scanForward_balanced by (try lia; apply Balanced_app; assumption).
    reflexivity. }
  repeat split; try assumption.
  apply findCodeBlock_no_pair; [|exact Hl].
  rewrite Hstart, Hend. lia.
Qed.

Lemma findCodeBlock_unclosed_witness :
  findCodeBlock (doc1 " f = (a b ") (mkPosition 0 7) = Some (str "f = (a b").
Proof.
  apply (findCodeBlock_unclosed (doc1 " f = (a b ") (mkPosition 0 7)
           (str " f = ") (str "a ") (str "b ") (str " f = (a b ")).
  - reflexivity.
  - reflexivity.
  - vm_compute. repeat (apply Balanced_other; [reflexivity|]). apply Balanced_nil.
  - discriminate.
  - vm_compute. repeat (apply Balanced_other; [reflexivity|]). apply Balanced_nil.
  - reflexivity.
Defined.

(** X5. With an empty selection on an existing line the command always has
    a fragment (no exception), and the fragment is the empty string only
    when the cursor's line is empty. *)
Theorem chosenFragment_empty_line
    (d : TextDocument) (p : Position) (l : jsstring) :
  lineAt d (line p) = Some l ->
  exists f, chosenFragment (mkEditor d (mkSelection p p)) = Some f
            /\ (f = [] -> l = []).
Proof.
  intros Hl. unfold chosenFragment. cbn [document selection active].
  rewrite isEmpty_cursor. cbn [negb].
  assert (Hb : exists b, findCodeBlock d p = Some b).
  { unfold findCodeBlock. rewrite Hl.
    destruct ((0 <=? _) && (_ <? _)); eexists; reflexivity. }
  destruct Hb as [b ->].
  destruct b as [|c b]; cbn [truthy].
  - exists l. split; [exact Hl | auto].
  - eexists. split; [reflexivity | discriminate].
Qed.

Lemma chosenFragment_empty_line_witness :
  exists f, chosenFragment (cursorAt (doc1 "   ") 0 1) = Some f
            /\ (f = [] -> str "   " = []).
Proof.
  apply (chosenFragment_empty_line (doc1 "   ") (mkPosition 0 1) (str "   ")).
  reflexivity.
Defined.

(** ** More on the supervisor *)

(** *** Trimming *)

Lemma trimStart_idem (s : jsstring) : trimStart (trimStart s) = trimStart s.
Proof.
  induction s as [|c s IH]; [reflexivity|]. cbn [trimStart].
  destruct (isWhiteSpace c) eqn:E; [exact IH|]. cbn [trimStart]. rewrite E.
  reflexivity.
Qed.

Lemma trimStart_head (s t : jsstring) (c : N) :
  trimStart s = c :: t -> isWhiteSpace c = false.
Proof.
  induction s as [|a s IH]; [discriminate|]. cbn [trimStart].
  destruct (isWhiteSpace a) eqn:E; [exact IH|]. intros H. congruence.
Qed.

Lemma trimStart_snoc (s : jsstring) (c : N) :
  isWhiteSpace c = false -> trimStart (s ++ [c]) = trimStart s ++ [c].
Proof.
  intros Hc. induction s as [|a s IH]; cbn [app trimStart].
  - rewrite Hc. reflexivity.
  - destruct (isWhiteSpace a); [exact IH | reflexivity].
Qed.

Lemma trimEnd_cons (c : N) (t : jsstring) :
  isWhiteSpace c = false -> trimEnd (c :: t) = c :: trimEnd t.
Proof.
  intros Hc. unfold trimEnd. cbn [rev].
  rewrite trimStart_snoc by exact Hc. rewrite rev_app_distr. reflexivity.
Qed.

Lemma trimEnd_idem (s : jsstring) : trimEnd (trimEnd s) = trimEnd s.
Proof. unfold trimEnd. rewrite rev_involutive, trimStart_idem. reflexivity. Qed.

Lemma trim_idem (s : jsstring) : trim (trim s) = trim s.
Proof.
  unfold trim. destruct (trimStart s) as [|c t] eqn:E; [reflexivity|].
  pose proof (trimStart_head _ _ _ E) as Hc.
  rewrite trimEnd_cons by exact Hc. cbn [trimStart]. rewrite Hc.
  rewrite <- trimEnd_cons by exact Hc. apply trimEnd_idem.
Qed.

(** X13. Sending a fragment and sending its trimmed text are the same
    operation: surrounding whitespace of a fragment is never observable. *)
Theorem sendCode_trim (c : jsstring) (st : State) :
  sendCode (trim c) st = sendCode c st.
Proof. unfold sendCode. rewrite trim_idem. reflexivity. Qed.

(** *** The echo line *)

Lemma firstLine_no_LF (s : jsstring) : includesLF (firstLine s) = false.
Proof.
  induction s as [|c s IH]; [reflexivity|]. cbn [firstLine].
  destruct (N.eqb_spec c LF) as [->|Hne]; [reflexivity|].
  unfold includesLF in *. cbn [existsb]. rewrite IH.
  destruct (N.eqb_spec LF c); [congruence | reflexivity].
Qed.

Lemma firstLine_whole (s : jsstring) : includesLF s = false -> firstLine s = s.
Proof.
  unfold includesLF. induction s as [|c s IH]; [reflexivity|]. cbn [existsb firstLine].
  intros H. apply orb_false_elim in H as [Hc Hs].
  destruct (N.eqb_spec c LF) as [->|Hne]; [discriminate Hc|].
  rewrite IH by exact Hs. reflexivity.
Qed.

Lemma firstLine_prefix (s : jsstring) : firstLine s `prefix_of` s.
Proof.
  induction s as [|c s IH]; [reflexivity|]. cbn [firstLine].
  destruct (N.eqb c LF); [apply prefix_nil | apply prefix_cons, IH].
Qed.

(** X12. For a fragment that is sent, exactly one chunk is appended to the
    post window: an empty line, the arrow, the first line of the trimmed
    fragment, three dots exactly when the trimmed fragment has further
    lines, and a line end.  The echoed text never contains a line feed (a
    carriage return before the first line feed stays in it) and is the
    whole trimmed fragment when that holds no line feed. *)
Theorem sendCode_echo
    (st : State) (h : nat) (p : ChildProcess) (w : list jsstring) (c : jsstring) :
  sclangProcess st = Some h -> heap st !! h = Some p -> stdin p = Some w ->
  trim c <> [] ->
  postWindowOutput (sendCode c st)
  = postWindowOutput st
    ++ [NL ++ str "-> " ++ firstLine (trim c)
           ++ (if includesLF (trim c) then str "..." else []) ++ NL]
  /\ includesLF (firstLine (trim c)) = false
  /\ firstLine (trim c) `prefix_of` trim c
  /\ (includesLF (trim c) = false -> firstLine (trim c) = trim c)
  /\ sclangOutput (sendCode c st) = sclangOutput st
  /\ errorMessages (sendCode c st) = errorMessages st.
Proof.
  intros Hh Hp Hin Hc.
  assert (E : sendCode c st
              = write h (trim c ++ [ESC])
                  (postAppendLine
                     (NL ++ str "-> " ++ firstLine (trim c)
                         ++ (if includesLF (trim c) then str "..." else [])) st)).
  { unfold sendCode, deref. rewrite Hh, Hp, Hin.
    destruct (trim c); [contradiction | reflexivity]. }
  rewrite E. split.
  { cbn [write setHeap postAppendLine postAppend postWindowOutput].
    rewrite <- !app_assoc. reflexivity. }
  split; [apply firstLine_no_LF|].
  split; [apply firstLine_prefix|].
  split; [apply firstLine_whole|].
  split; reflexivity.
Qed.

Lemma sendCode_echo_witness :
  postWindowOutput (sendCode (str "  (" ++ NL ++ str "1.postln;" ++ NL ++ str ")  ") running)
  = [NL ++ str "-> (..." ++ NL].
Proof.
  destruct (sendCode_echo running 0
              (mkProcess (str "sclang") true false (Some [])) []
              (str "  (" ++ NL ++ str "1.postln;" ++ NL ++ str ")  "))
    as [H _]; [reflexivity | reflexivity | reflexivity | discriminate |].
  exact H.
Defined.

(** *** Starting, stopping, dispatching *)

(** X6. The executable path is never the empty string: it is the setting
    when that is a non-empty string, and [sclang] when the setting is unset
    or empty. *)
Theorem getSclangPath_default (env : Env) :
  getSclangPath env <> []
  /\ (forall p, configuredPath env = Some p -> p <> [] -> getSclangPath env = p)
  /\ (configuredPath env = None \/ configuredPath env = Some [] ->
      getSclangPath env = str "sclang").
Proof.
  unfold getSclangPath. repeat split.
  - destruct (configuredPath env) as [[|c p]|]; discriminate.
  - intros p -> Hp. destruct p; [contradiction | reflexivity].
  - intros [-> | ->]; reflexivity.
Qed.

Lemma getSclangPath_default_witness :
  getSclangPath (mkEnv (str "darwin") (Some (str "/opt/sc/sclang")) (fun _ => None)
            (fun _ => true))
  = str "/opt/sc/sclang".
Proof.
  destruct (getSclangPath_default
              (mkEnv (str "darwin") (Some (str "/opt/sc/sclang")) (fun _ => None)
            (fun _ => true)))
    as (_ & H & _).
  apply H; [reflexivity | discriminate].
Defined.

(** X7. When [spawn] throws, [executeCode] drops the fragment: the failure
    is logged and surfaced once, no process is created, the handle is left
    as it was, no send is scheduled and nothing reaches the post window. *)
Theorem executeCode_spawn_throws
    (env : Env) (c err : jsstring) (st : State) :
  isLive st = false -> spawnThrows env (getSclangPath env) = Some err ->
  heap (executeCode env c st) = heap st
  /\ sclangProcess (executeCode env c st) = sclangProcess st
  /\ timers (executeCode env c st) = timers st
  /\ postWindowOutput (executeCode env c st) = postWindowOutput st
  /\ postWindowShown (executeCode env c st) = postWindowShown st
  /\ errorMessages (executeCode env c st)
     = errorMessages st
       ++ [str "Failed to start sclang. Make sure SuperCollider is installed and sclangPath is configured."]
  /\ sclangOutput (executeCode env c st)
     = sclangOutput st
       ++ [str "[SuperCollider] Starting sclang: " ++ getSclangPath env ++ NL;
           str "[SuperCollider] Failed to start sclang: " ++ err ++ NL].
Proof.
  intros Hlive Hspawn. unfold executeCode, startSclang.
  rewrite Hlive, Hspawn. cbn. rewrite <- !app_assoc. repeat split.
Qed.

Lemma executeCode_spawn_throws_witness :
  heap (executeCode brokenEnv (str "1.postln;") initial) = []
  /\ timers (executeCode brokenEnv (str "1.postln;") initial) = [].
Proof.
  destruct (executeCode_spawn_throws brokenEnv (str "1.postln;")
              (str "TypeError") initial) as (H1 & _ & H3 & _);
    [reflexivity | reflexivity |].
  split; [exact H1 | exact H3].
Defined.

(** X9. With a live handle [stopSclang] calls [kill()] on exactly the
    process the handle refers to (its [killed] flag is set when the signal
    was delivered and stays unset otherwise), clears the handle, logs two
    lines and leaves everything else alone: the other processes, what has
    been written, the post window, the notifications and the pending
    timers. *)
Theorem stopSclang_live (env : Env) (st : State) (h : nat) (p : ChildProcess) :
  sclangProcess st = Some h -> heap st !! h = Some p -> killed p = false ->
  sclangProcess (stopSclang env st) = None
  /\ heap (stopSclang env st) !! h
     = Some (mkProcess (path p) (fallbackToExe p) (killDelivers env h) (stdin p))
  /\ (forall h', h' <> h -> heap (stopSclang env st) !! h' = heap st !! h')
  /\ length (heap (stopSclang env st)) = length (heap st)
  /\ timers (stopSclang env st) = timers st
  /\ postWindowOutput (stopSclang env st) = postWindowOutput st
  /\ errorMessages (stopSclang env st) = errorMessages st
  /\ sclangOutput (stopSclang env st)
     = sclangOutput st ++ [str "[SuperCollider] Stopping sclang..." ++ NL;
                           str "[SuperCollider] sclang stopped" ++ NL].
Proof.
  intros Hh Hp Hk.
  assert (Hlive : isLive st = true).
  { unfold isLive, deref. rewrite Hh, Hp, Hk. reflexivity. }
  unfold stopSclang, kill. rewrite Hh, Hlive.
  destruct (killDelivers env h); cbn; rewrite <- !app_assoc.
  - repeat split.
    + rewrite list_lookup_alter_eq, Hp. reflexivity.
    + intros h' Hne. apply list_lookup_alter_ne. congruence.
    + apply length_alter.
  - repeat split. rewrite Hp. destruct p as [pa fb kd sin]. cbn in Hk |- *.
    rewrite Hk. reflexivity.
Qed.

Lemma stopSclang_live_witness :
  sclangProcess (stopSclang linuxEnv running) = None
  /\ heap (stopSclang linuxEnv running) !! 0%nat
     = Some (mkProcess (str "sclang") true true (Some []))
  /\ heap (stopSclang goneEnv running) !! 0%nat
     = Some (mkProcess (str "sclang") true false (Some [])).
Proof.
  destruct (stopSclang_live linuxEnv running 0
              (mkProcess (str "sclang") true false (Some [])))
    as (H1 & H2 & _); [reflexivity | reflexivity | reflexivity |].
  destruct (stopSclang_live goneEnv running 0
              (mkProcess (str "sclang") true false (Some [])))
    as (_ & H3 & _); [reflexivity | reflexivity | reflexivity |].
  split; [exact H1 | split; [exact H2 | exact H3]].
Defined.

(** X10. Stopping twice is stopping once. *)
Theorem stopSclang_idempotent (env : Env) (st : State) :
  stopSclang env (stopSclang env st) = stopSclang env st.
Proof.
  assert (Hstopped : forall st', isLive st' = false -> stopSclang env st' = st').
  { intros st' H. unfold stopSclang. rewrite H.
    destruct (sclangProcess st'); reflexivity. }
  destruct (isLive st) eqn:Hlive.
  - apply Hstopped. unfold stopSclang.
    destruct (sclangProcess st) as [h|] eqn:Hh.
    + rewrite Hlive. reflexivity.
    + unfold isLive, deref in Hlive. rewrite Hh in Hlive. discriminate.
  - rewrite (Hstopped st Hlive). apply Hstopped, Hlive.
Qed.

(** X11. A send without a handle, or with a handle that has no input stream,
    drops the fragment: the only effect is the notification that the
    interpreter is not running. *)
Theorem sendCode_not_running (c : jsstring) (st : State) :
  (sclangProcess st = None
   \/ exists h p, sclangProcess st = Some h /\ heap st !! h = Some p
                  /\ stdin p = None) ->
  sendCode c st = showErrorMessage (str "sclang is not running") st
  /\ written (sendCode c st) = written st
  /\ postWindowOutput (sendCode c st) = postWindowOutput st
  /\ timers (sendCode c st) = timers st.
Proof.
  intros H.
  assert (E : sendCode c st = showErrorMessage (str "sclang is not running") st).
  { destruct H as [H | (h & p & Hh & Hp & Hin)].
    - apply sendCode_null, H.
    - unfold sendCode, deref. rewrite Hh, Hp, Hin. reflexivity. }
  rewrite E. repeat split.
Qed.

Lemma sendCode_not_running_witness :
  sendCode (str "1.postln;") initial
  = showErrorMessage (str "sclang is not running") initial.
Proof.
  destruct (sendCode_not_running (str "1.postln;") initial) as [H _];
    [left; reflexivity | exact H].
Defined.

(** X8. A fragment executed without a live handle reaches the interpreter
    started for it: when the timer that [executeCode] has set elapses (and
    nothing else has happened meanwhile), the trimmed fragment followed by
    the escape code unit is the first chunk written to the new process, the
    timer is gone and no notification has been shown. *)
Theorem executeCode_then_timer (env : Env) (c : jsstring) (st : State) :
  isLive st = false -> spawnThrows env (getSclangPath env) = None ->
  trim c <> [] ->
  let st1 := executeCode env c st in
  let st2 := onTimer (length (timers st)) st1 in
  sclangProcess st1 = Some (length (heap st))
  /\ heap st1 = heap st ++ [mkProcess (getSclangPath env) true false (Some [])]
  /\ written st1 = written st
  /\ heap st2
     = heap st ++ [mkProcess (getSclangPath env) true false
                     (Some [trim c ++ [ESC]])]
  /\ timers st2 = timers st
  /\ errorMessages st2 = errorMessages st.
Proof.
  intros Hlive Hspawn Hc st1 st2.
  assert (E1 : st1 = executeCode env c st) by reflexivity.
  rewrite executeCode_stopped in E1 by assumption.
  assert (Hh1 : sclangProcess st1 = Some (length (heap st))) by (rewrite E1; reflexivity).
  assert (Hp1 : heap st1 = heap st ++ [mkProcess (getSclangPath env) true false (Some [])])
    by (rewrite E1; reflexivity).
  assert (Ht1 : timers st1 = timers st ++ [(1000, c)]) by (rewrite E1; reflexivity).
  assert (He1 : errorMessages st1 = errorMessages st) by (rewrite E1; reflexivity).
  assert (E2 : st2 = sendCode c (setTimers (timers st) st1)).
  { unfold st2, onTimer. rewrite Ht1, list_lookup_middle by reflexivity.
    rewrite delete_middle, app_nil_r. reflexivity. }
  assert (E3 : sendCode c (setTimers (timers st) st1)
               = write (length (heap st)) (trim c ++ [ESC])
                   (postAppendLine
                      (NL ++ str "-> " ++ firstLine (trim c)
                          ++ (if includesLF (trim c) then str "..." else []))
                      (setTimers (timers st) st1))).
  { unfold sendCode, deref. cbn [sclangProcess heap setTimers].
    rewrite Hh1, Hp1, list_lookup_middle by reflexivity. cbn [stdin].
    destruct (trim c); [contradiction | reflexivity]. }
  split; [exact Hh1|]. split; [exact Hp1|].
  split; [apply written_spawn with (pth := getSclangPath env) (fb := true); exact Hp1|].
  rewrite E2, E3. cbn [write setHeap postAppendLine postAppend setTimers heap timers errorMessages].
  split; [|split; [reflexivity | exact He1]].
  rewrite Hp1.
  apply list_eq. intros i.
  destruct (decide (i = length (heap st))) as [->|Hne].
  - rewrite list_lookup_alter_eq, !list_lookup_middle by reflexivity. reflexivity.
  - rewrite list_lookup_alter_ne by congruence.
    destruct (Nat.lt_ge_cases i (length (heap st))) as [Hlt|Hge].
    + rewrite !lookup_app_l by exact Hlt. reflexivity.
    + rewrite !lookup_ge_None_2; [reflexivity | |];
        rewrite length_app; cbn [length]; lia.
Qed.

Lemma executeCode_then_timer_witness :
  heap (onTimer 0 (executeCode linuxEnv (str " 1.postln; ") initial))
  = [mkProcess (str "sclang") true false (Some [str "1.postln;" ++ [ESC]])].
Proof.
  destruct (executeCode_then_timer linuxEnv (str " 1.postln; ") initial)
    as (_ & _ & _ & H & _); [reflexivity | reflexivity | discriminate |].
  exact H.
Defined.

(** *** What no event undoes *)

Lemma laterProcess_refl (p : ChildProcess) : laterProcess p p.
Proof.
  unfold laterProcess. repeat split; auto. destruct (stdin p); [reflexivity | exact I].
Qed.

Lemma laterProcess_trans (p q r : ChildProcess) :
  laterProcess p q -> laterProcess q r -> laterProcess p r.
Proof.
  unfold laterProcess. intros (H1 & H2 & H3 & H4) (G1 & G2 & G3 & G4).
  repeat split; try congruence; auto.
  destruct (stdin p), (stdin q), (stdin r); try contradiction; auto.
  etrans; eassumption.
Qed.

Lemma extends_refl (st : State) : extends st st.
Proof.
  unfold extends. repeat split; try reflexivity.
  intros h p Hp. exists p. split; [exact Hp | apply laterProcess_refl].
Qed.

Lemma extends_trans (st1 st2 st3 : State) :
  extends st1 st2 -> extends st2 st3 -> extends st1 st3.
Proof.
  intros (A1 & A2 & A3 & A4) (B1 & B2 & B3 & B4).
  unfold extends. repeat split; try (etrans; eassumption).
  intros h p Hp. destruct (A4 h p Hp) as (q & Hq & Hpq).
  destruct (B4 h q Hq) as (r & Hr & Hqr).
  exists r. split; [exact Hr | eapply laterProcess_trans; eassumption].
Qed.

(** A change that touches neither a channel nor a process. *)
Lemma extends_frame (st st' : State) :
  sclangOutput st' = sclangOutput st ->
  postWindowOutput st' = postWindowOutput st ->
  errorMessages st' = errorMessages st ->
  heap st' = heap st ->
  extends st st'.
Proof.
  intros E1 E2 E3 E4. unfold extends. rewrite E1, E2, E3, E4.
  apply extends_refl.
Qed.

Lemma extends_logLine (s : jsstring) (st : State) : extends st (logLine s st).
Proof.
  unfold extends. cbn. repeat split; try reflexivity.
  - apply prefix_app_r. reflexivity.
  - intros h p Hp. exists p. split; [exact Hp | apply laterProcess_refl].
Qed.

Lemma extends_postAppend (s : jsstring) (st : State) : extends st (postAppend s st).
Proof.
  unfold extends. cbn. repeat split; try reflexivity.
  - apply prefix_app_r. reflexivity.
  - intros h p Hp. exists p. split; [exact Hp | apply laterProcess_refl].
Qed.

Lemma extends_showErrorMessage (s : jsstring) (st : State) :
  extends st (showErrorMessage s st).
Proof.
  unfold extends. cbn. repeat split; try reflexivity.
  - apply prefix_app_r. reflexivity.
  - intros h p Hp. exists p. split; [exact Hp | apply laterProcess_refl].
Qed.

Lemma extends_setProcess (o : option nat) (st : State) : extends st (setProcess o st).
Proof. apply extends_frame; reflexivity. Qed.

Lemma extends_setTimers (ts : list (Z * jsstring)) (st : State) :
  extends st (setTimers ts st).
Proof. apply extends_frame; reflexivity. Qed.

Lemma extends_postShow (st : State) : extends st (postShow st).
Proof. apply extends_frame; reflexivity. Qed.

Lemma extends_spawn (p : ChildProcess) (st : State) :
  extends st (setHeap (heap st ++ [p]) st).
Proof.
  unfold extends. cbn. repeat split; try reflexivity.
  intros h q Hq. exists q. split; [|apply laterProcess_refl].
  apply lookup_app_l_Some, Hq.
Qed.

Lemma extends_alter (f : ChildProcess -> ChildProcess) (h : nat) (st : State) :
  (forall p, laterProcess p (f p)) ->
  extends st (setHeap (alter f h (heap st)) st).
Proof.
  intros Hf. unfold extends. cbn. repeat split; try reflexivity.
  intros h' p Hp. destruct (decide (h = h')) as [->|Hne].
  - exists (f p). rewrite list_lookup_alter_eq, Hp. split; [reflexivity | apply Hf].
  - exists p. rewrite list_lookup_alter_ne by exact Hne.
    split; [exact Hp | apply laterProcess_refl].
Qed.

Lemma extends_kill (b : bool) (h : nat) (st : State) : extends st (kill b h st).
Proof.
  unfold kill. destruct b; [|apply extends_refl].
  apply extends_alter. intros p. unfold laterProcess. cbn.
  repeat split; auto. destruct (stdin p); [reflexivity | exact I].
Qed.

Lemma extends_write (h : nat) (chunk : jsstring) (st : State) :
  extends st (write h chunk st).
Proof.
  apply extends_alter. intros p. unfold laterProcess. cbn.
  repeat split; auto. destruct (stdin p); cbn; [|exact I].
  apply prefix_app_r. reflexivity.
Qed.

(** Peels the updates of a state one by one. *)
Ltac extends_peel :=
  repeat first
    [ apply extends_refl
    | assumption
    | eapply extends_trans;
      [| first [ apply extends_kill | apply extends_write
               | apply extends_logLine | apply extends_postAppend
               | apply extends_showErrorMessage | apply extends_setProcess
               | apply extends_setTimers | apply extends_postShow
               | apply extends_spawn ] ] ].

Lemma extends_startSclang (env : Env) (fb : bool) (st : State) :
  extends st (snd (startSclang env fb st)).
Proof.
  unfold startSclang, spawnProcess.
  destruct (isLive st); [cbn [snd]; extends_peel|].
  destruct (spawnThrows env (getSclangPath env)); cbn [snd]; extends_peel.
Qed.

Lemma extends_stopSclang (env : Env) (st : State) :
  extends st (stopSclang env st).
Proof.
  unfold stopSclang. destruct (sclangProcess st); [|apply extends_refl].
  destruct (isLive st); extends_peel.
Qed.

Lemma extends_sendCode (c : jsstring) (st : State) : extends st (sendCode c st).
Proof.
  unfold sendCode, postAppendLine.
  destruct (sclangProcess st); [|extends_peel].
  destruct (deref st) as [p|]; [|extends_peel].
  destruct (stdin p); [|extends_peel].
  destruct (negb (truthy (trim c))); extends_peel.
Qed.

Lemma extends_executeCode (env : Env) (c : jsstring) (st : State) :
  extends st (executeCode env c st).
Proof.
  unfold executeCode. destruct (negb (isLive st)); [|apply extends_sendCode].
  pose proof (extends_startSclang env true st) as H.
  destruct (startSclang env true st) as [ok st']. cbn [snd] in H.
  destruct (negb ok); [exact H|]. unfold setTimeout. extends_peel.
Qed.

Lemma extends_onError (env : Env) (pid : nat) (err : SpawnError) (st : State) :
  extends st (onError env pid err st).
Proof.
  unfold onError, spawnProcess. destruct (heap st !! pid) as [p|]; [|apply extends_refl].
  destruct (bool_decide (path p = str "sclang") && fallbackToExe p
            && (bool_decide (platform env = str "linux")
                || bool_decide (platform env = str "win32")));
    [|extends_peel].
  destruct (spawnThrows env (str "sclang.exe")); extends_peel.
Qed.

Lemma extends_step (env : Env) (e : Event) (st : State) :
  extends st (step env e st).
Proof.
  destruct e; cbn [step].
  - unfold executeBlockCommand. destruct (chosenFragment ed);
      [apply extends_executeCode | apply extends_refl].
  - apply extends_executeCode.
  - apply extends_executeCode.
  - apply extends_executeCode.
  - apply extends_executeCode.
  - unfold startCommand. pose proof (extends_startSclang env true st). extends_peel.
  - apply extends_stopSclang.
  - apply extends_onError.
  - unfold onExit. destruct (heap st !! pid); extends_peel.
  - unfold onData. destruct (heap st !! pid); extends_peel.
  - unfold onTimer. destruct (timers st !! k) as [[delay c]|]; [|apply extends_refl].
    eapply extends_trans; [|apply extends_sendCode]. extends_peel.
Qed.

Lemma extends_run (env : Env) (es : list Event) (st : State) :
  extends st (run env es st).
Proof.
  unfold run. revert st. induction es as [|e es IH]; intros st; cbn [fold_left].
  - apply extends_refl.
  - eapply extends_trans; [apply extends_step | apply IH].
Qed.

(** X17. The two output channels and the notifications are append-only:
    whatever commands, process events and timers follow, what they hold at
    some moment stays as a prefix of what they hold later. *)
Theorem transcripts_append_only (env : Env) (es : list Event) (st : State) :
  sclangOutput st `prefix_of` sclangOutput (run env es st)
  /\ postWindowOutput st `prefix_of` postWindowOutput (run env es st)
  /\ errorMessages st `prefix_of` errorMessages (run env es st).
Proof.
  destruct (extends_run env es st) as (H1 & H2 & H3 & _). auto.
Qed.

(** X18. A process object, once created, is never removed or replaced:
    after any sequence of events it is found under the same reference,
    with the path and the fallback flag its observers captured, still
    killed if it was, and with an input stream that has only received more
    chunks after the ones it had. *)
Theorem processes_persist
    (env : Env) (es : list Event) (st : State) (h : nat) (p : ChildProcess) :
  heap st !! h = Some p ->
  exists p', heap (run env es st) !! h = Some p' /\ laterProcess p p'.
Proof.
  intros Hp. destruct (extends_run env es st) as (_ & _ & _ & H). auto.
Qed.

Lemma processes_persist_witness :
  exists p',
    heap (run linuxEnv [StopSclang; BootServer; TimerElapsed 0; ProcExit 0 None]
              running) !! 0%nat = Some p'
    /\ laterProcess (mkProcess (str "sclang") true false (Some [])) p'.
Proof.
  apply (processes_persist linuxEnv
           [StopSclang; BootServer; TimerElapsed 0; ProcExit 0 None] running 0).
  reflexivity.
Defined.

(** *** What is written to the interpreter *)

Lemma chunksWellFormed_frame (st st' : State) :
  heap st' = heap st -> chunksWellFormed st -> chunksWellFormed st'.
Proof. unfold chunksWellFormed. intros ->. trivial. Qed.

Lemma chunksWellFormed_spawn (st st' : State) (pth : jsstring) (fb : bool) :
  heap st' = heap st ++ [mkProcess pth fb false (Some [])] ->
  chunksWellFormed st -> chunksWellFormed st'.
Proof.
  unfold chunksWellFormed. intros -> H h p w Hp Hw.
  apply lookup_app_Some in Hp as [Hp | [_ Hp]].
  - exact (H h p w Hp Hw).
  - apply list_lookup_singleton_Some in Hp as [_ <-]. cbn in Hw.
    injection Hw as <-. constructor.
Qed.

Lemma chunksWellFormed_kill (b : bool) (h : nat) (st : State) :
  chunksWellFormed st -> chunksWellFormed (kill b h st).
Proof.
  unfold kill. destruct b; [|trivial].
  unfold chunksWellFormed. cbn. intros H h' p w Hp Hw.
  destruct (decide (h = h')) as [->|Hne].
  - rewrite list_lookup_alter_eq in Hp.
    destruct (heap st !! h') as [q|] eqn:Hq; [|discriminate].
    cbn in Hp. injection Hp as <-. cbn in Hw. exact (H h' q w Hq Hw).
  - rewrite list_lookup_alter_ne in Hp by exact Hne. exact (H h' p w Hp Hw).
Qed.

Lemma chunksWellFormed_write (h : nat) (chunk : jsstring) (st : State) :
  commandChunk chunk -> chunksWellFormed st -> chunksWellFormed (write h chunk st).
Proof.
  unfold chunksWellFormed, write. cbn. intros Hc H h' p w Hp Hw.
  destruct (decide (h = h')) as [->|Hne].
  - rewrite list_lookup_alter_eq in Hp.
    destruct (heap st !! h') as [q|] eqn:Hq; [|discriminate].
    cbn in Hp. injection Hp as <-. cbn in Hw.
    destruct (stdin q) as [w0|] eqn:Hw0; [|discriminate].
    cbn in Hw. injection Hw as <-.
    apply Forall_app. split; [exact (H h' q w0 Hq Hw0)|].
    constructor; [exact Hc | constructor].
  - rewrite list_lookup_alter_ne in Hp by exact Hne. exact (H h' p w Hp Hw).
Qed.

Lemma chunksWellFormed_sendCode (c : jsstring) (st : State) :
  chunksWellFormed st -> chunksWellFormed (sendCode c st).
Proof.
  intros H. unfold sendCode.
  destruct (sclangProcess st) as [h|];
    [|apply (chunksWellFormed_frame st); [reflexivity | exact H]].
  destruct (deref st) as [p|];
    [|apply (chunksWellFormed_frame st); [reflexivity | exact H]].
  destruct (stdin p);
    [|apply (chunksWellFormed_frame st); [reflexivity | exact H]].
  destruct (trim c) as [|a t] eqn:E; cbn [truthy negb]; [exact H|].
  apply chunksWellFormed_write.
  - exists c. rewrite E. split; [discriminate | reflexivity].
  - apply (chunksWellFormed_frame st); [reflexivity | exact H].
Qed.

Lemma chunksWellFormed_startSclang (env : Env) (fb : bool) (st : State) :
  chunksWellFormed st -> chunksWellFormed (snd (startSclang env fb st)).
Proof.
  intros H. unfold startSclang. destruct (isLive st).
  - apply (chunksWellFormed_frame st); [reflexivity | exact H].
  - destruct (spawnThrows env (getSclangPath env)).
    + apply (chunksWellFormed_frame st); [reflexivity | exact H].
    + apply (chunksWellFormed_spawn st _ (getSclangPath env) fb); [reflexivity | exact H].
Qed.

Lemma chunksWellFormed_executeCode (env : Env) (c : jsstring) (st : State) :
  chunksWellFormed st -> chunksWellFormed (executeCode env c st).
Proof.
  intros H. unfold executeCode.
  destruct (negb (isLive st)); [|apply chunksWellFormed_sendCode, H].
  pose proof (chunksWellFormed_startSclang env true st H) as Hs.
  destruct (startSclang env true st) as [ok st']. cbn [snd] in Hs.
  destruct (negb ok); [exact Hs|].
  apply (chunksWellFormed_frame st'); [reflexivity | exact Hs].
Qed.

Lemma chunksWellFormed_step (env : Env) (e : Event) (st : State) :
  chunksWellFormed st -> chunksWellFormed (step env e st).
Proof.
  intros H. destruct e; cbn [step].
  - unfold executeBlockCommand. destruct (chosenFragment ed); [|exact H].
    apply chunksWellFormed_executeCode, H.
  - apply chunksWellFormed_executeCode, H.
  - apply chunksWellFormed_executeCode, H.
  - apply chunksWellFormed_executeCode, H.
  - apply chunksWellFormed_executeCode, H.
  - unfold startCommand.
    apply (chunksWellFormed_frame (snd (startSclang env true st)));
      [reflexivity | apply chunksWellFormed_startSclang, H].
  - unfold stopSclang. destruct (sclangProcess st) as [h|]; [|exact H].
    destruct (isLive st); [|exact H].
    apply (chunksWellFormed_frame
             (kill (killDelivers env h) h
                (logLine (str "[SuperCollider] Stopping sclang...") st)));
      [reflexivity|].
    apply chunksWellFormed_kill.
    apply (chunksWellFormed_frame st); [reflexivity | exact H].
  - unfold onError. destruct (heap st !! pid) as [p|]; [|exact H].
    destruct (bool_decide (path p = str "sclang") && fallbackToExe p
              && (bool_decide (platform env = str "linux")
                  || bool_decide (platform env = str "win32"))).
    + destruct (spawnThrows env (str "sclang.exe")).
      * apply (chunksWellFormed_frame st); [reflexivity | exact H].
      * apply (chunksWellFormed_spawn st _ (str "sclang.exe") (fallbackToExe p));
          [reflexivity | exact H].
    + apply (chunksWellFormed_frame st); [reflexivity | exact H].
  - unfold onExit. destruct (heap st !! pid); [|exact H].
    apply (chunksWellFormed_frame st); [reflexivity | exact H].
  - unfold onData. destruct (heap st !! pid); [|exact H].
    apply (chunksWellFormed_frame st); [reflexivity | exact H].
  - unfold onTimer. destruct (timers st !! k) as [[delay c]|]; [|exact H].
    apply chunksWellFormed_sendCode.
    apply (chunksWellFormed_frame st); [reflexivity | exact H].
Qed.

(** X19. Whatever happens after activation, every chunk that any process has
    received on its input stream is a non-empty trimmed fragment followed
    by the escape code unit: the extension never writes an empty command,
    untrimmed text or anything unterminated. *)
Theorem written_chunks_are_commands (env : Env) (es : list Event) :
  Forall commandChunk (written (run env es initial))
  /\ forall chunk, chunk ∈ written (run env es initial) ->
       last chunk = Some ESC /\ (1 < length chunk)%nat.
Proof.
  assert (H : chunksWellFormed (run env es initial)).
  { unfold run.
    assert (G : forall st, chunksWellFormed st ->
                  chunksWellFormed (fold_left (fun st e => step env e st) es st)).
    { induction es as [|e es IH]; intros st Hst; cbn [fold_left]; [exact Hst|].
      apply IH, chunksWellFormed_step, Hst. }
    apply G. intros h p w Hp. discriminate Hp. }
  assert (F : Forall commandChunk (written (run env es initial))).
  { unfold written. apply Forall_concat. apply Forall_forall.
    intros w Hw. apply list_elem_of_fmap in Hw as (p & -> & Hp).
    apply list_elem_of_lookup in Hp as [h Hh].
    destruct (stdin p) as [w|] eqn:Hin; cbn; [|constructor].
    exact (H h p w Hh Hin). }
  split; [exact F|].
  intros chunk Hc. rewrite Forall_forall in F.
  destruct (F chunk Hc) as (c & Hne & ->).
  split; [apply last_snoc|].
  rewrite length_app. cbn. destruct (trim c); [contradiction | cbn; lia].
Qed.

(** *** Spawning *)

Lemma heap_sendCode (c : jsstring) (st : State) :
  length (heap (sendCode c st)) = length (heap st).
Proof.
  unfold sendCode. destruct (sclangProcess st); [|reflexivity].
  destruct (deref st) as [p|]; [|reflexivity].
  destruct (stdin p); [|reflexivity].
  destruct (negb (truthy (trim c))); [reflexivity|].
  cbn. apply length_alter.
Qed.

Lemma heap_startSclang (env : Env) (fb : bool) (st : State) :
  (isLive st = true ->
   length (heap (snd (startSclang env fb st))) = length (heap st))
  /\ (length (heap (snd (startSclang env fb st))) = length (heap st)
      \/ length (heap (snd (startSclang env fb st))) = S (length (heap st))
         /\ sclangProcess (snd (startSclang env fb st)) = Some (length (heap st))).
Proof.
  unfold startSclang. destruct (isLive st).
  - split; [reflexivity | left; reflexivity].
  - split; [discriminate|].
    destruct (spawnThrows env (getSclangPath env)); [left; reflexivity|].
    right. cbn. rewrite length_app. cbn. split; [lia | reflexivity].
Qed.

Lemma heap_executeCode (env : Env) (c : jsstring) (st : State) :
  (isLive st = true ->
   length (heap (executeCode env c st)) = length (heap st))
  /\ (length (heap (executeCode env c st)) = length (heap st)
      \/ length (heap (executeCode env c st)) = S (length (heap st))
         /\ sclangProcess (executeCode env c st) = Some (length (heap st))).
Proof.
  unfold executeCode. destruct (isLive st) eqn:Hlive; cbn [negb].
  - pose proof (heap_sendCode c st). auto.
  - split; [discriminate|].
    destruct (heap_startSclang env true st) as [_ H].
    destruct (startSclang env true st) as [ok st']. cbn [snd] in H.
    destruct ok; cbn [negb]; exact H.
Qed.

(** X16. An event creates at most one process and removes none.  A process
    it creates becomes the handle.  While the handle is live, only the
    error observer (through its fallback) creates a process: no command,
    exit, output chunk or timer does. *)
Theorem step_spawns_at_most_one (env : Env) (e : Event) (st : State) :
  (length (heap (step env e st)) = length (heap st)
   \/ length (heap (step env e st)) = S (length (heap st))
      /\ sclangProcess (step env e st) = Some (length (heap st)))
  /\ (isLive st = true -> (forall pid err, e <> ProcError pid err) ->
      length (heap (step env e st)) = length (heap st)).
Proof.
  destruct e; cbn [step].
  - unfold executeBlockCommand. destruct (chosenFragment ed).
    + destruct (heap_executeCode env l st) as [H1 H2]. auto.
    + auto.
  - destruct (heap_executeCode env (str "s.boot;") st) as [H1 H2].
    unfold bootServer. auto.
  - destruct (heap_executeCode env (str "s.reboot;") st) as [H1 H2].
    unfold rebootServer. auto.
  - destruct (heap_executeCode env (str "s.quit;") st) as [H1 H2].
    unfold killServer. auto.
  - destruct (heap_executeCode env (str "CmdPeriod.run;") st) as [H1 H2].
    unfold stopAllSounds. auto.
  - destruct (heap_startSclang env true st) as [H1 H2].
    unfold startCommand. cbn [heap postShow sclangProcess]. auto.
  - assert (H : length (heap (stopSclang env st)) = length (heap st)).
    { unfold stopSclang. destruct (sclangProcess st) as [h|]; [|reflexivity].
      destruct (isLive st); [|reflexivity]. cbn [heap logLine setProcess].
      destruct (kill_frame (killDelivers env h) h
                  (logLine (str "[SuperCollider] Stopping sclang...") st))
        as (_ & _ & _ & _ & _ & ->). reflexivity. }
    auto.
  - split; [|intros _ H; exfalso; exact (H pid err eq_refl)].
    unfold onError. destruct (heap st !! pid) as [p|]; [|left; reflexivity].
    destruct (bool_decide (path p = str "sclang") && fallbackToExe p
              && (bool_decide (platform env = str "linux")
                  || bool_decide (platform env = str "win32")));
      [|left; reflexivity].
    destruct (spawnThrows env (str "sclang.exe")); [left; reflexivity|].
    right. cbn. rewrite length_app. cbn. split; [lia | reflexivity].
  - assert (H : length (heap (onExit pid exitCode st)) = length (heap st)).
    { unfold onExit. destruct (heap st !! pid); reflexivity. }
    auto.
  - assert (H : length (heap (onData pid text st)) = length (heap st)).
    { unfold onData. destruct (heap st !! pid); reflexivity. }
    auto.
  - assert (H : length (heap (onTimer k st)) = length (heap st)).
    { unfold onTimer. destruct (timers st !! k) as [[delay c]|]; [|reflexivity].
      rewrite heap_sendCode. reflexivity. }
    auto.
Qed.

Lemma step_spawns_at_most_one_witness :
  length (heap (step linuxEnv BootServer running)) = length (heap running).
Proof.
  destruct (step_spawns_at_most_one linuxEnv BootServer running) as [_ H].
  apply H; [reflexivity | discriminate].
Defined.

(** *** Interpreter output *)

(** X14. The chunks the processes emit on their output and error streams
    reach the post window unchanged, one entry per chunk, in arrival order,
    whichever process they come from; nothing else changes. *)
Theorem output_in_arrival_order
    (env : Env) (chunks : list (nat * jsstring)) (st : State) :
  Forall (fun x => is_Some (heap st !! fst x)) chunks ->
  postWindowOutput (run env (map (fun x => ProcData (fst x) (snd x)) chunks) st)
  = postWindowOutput st ++ map snd chunks
  /\ heap (run env (map (fun x => ProcData (fst x) (snd x)) chunks) st) = heap st
  /\ sclangProcess (run env (map (fun x => ProcData (fst x) (snd x)) chunks) st)
     = sclangProcess st
  /\ sclangOutput (run env (map (fun x => ProcData (fst x) (snd x)) chunks) st)
     = sclangOutput st
  /\ errorMessages (run env (map (fun x => ProcData (fst x) (snd x)) chunks) st)
     = errorMessages st
  /\ timers (run env (map (fun x => ProcData (fst x) (snd x)) chunks) st)
     = timers st.
Proof.
  unfold run. revert st.
  induction chunks as [|[pid text] chunks IH]; intros st Hall; cbn [map fold_left].
  - rewrite app_nil_r. repeat split.
  - inversion Hall as [|x xs [q Hq] Hrest]; subst. cbn [fst snd] in *.
    assert (E : step env (ProcData pid text) st = postAppend text st).
    { cbn [step]. unfold onData. rewrite Hq. reflexivity. }
    rewrite E. destruct (IH (postAppend text st) Hrest) as (H1 & H2 & H3 & H4 & H5 & H6).
    rewrite H1, H2, H3, H4, H5, H6. cbn. rewrite <- app_assoc. repeat split.
Qed.

Lemma output_in_arrival_order_witness :
  postWindowOutput
    (run linuxEnv [ProcData 0 (str "hello"); ProcData 0 (str "hello")] running)
  = [str "hello"; str "hello"].
Proof.
  destruct (output_in_arrival_order linuxEnv
              [(0%nat, str "hello"); (0%nat, str "hello")] running) as [H _].
  - repeat constructor; eexists; reflexivity.
  - exact H.
Defined.

(** *** Exit of a process that is not the handle *)

(** X15. The exit observer does not look at which process has exited.  When
    a process other than the handle exits, the handle is cleared all the
    same; the next [executeCode] then starts a further interpreter, and the
    process the handle referred to stays as it was, not killed and no
    longer referenced. *)
Theorem exit_of_other_process
    (env : Env) (st : State) (h pid : nat) (p : ChildProcess)
    (exitCode : option Z) (c : jsstring) :
  sclangProcess st = Some h -> heap st !! h = Some p -> killed p = false ->
  pid <> h -> is_Some (heap st !! pid) ->
  spawnThrows env (getSclangPath env) = None ->
  sclangProcess (onExit pid exitCode st) = None
  /\ heap (onExit pid exitCode st) = heap st
  /\ heap (executeCode env c (onExit pid exitCode st))
     = heap st ++ [mkProcess (getSclangPath env) true false (Some [])]
  /\ sclangProcess (executeCode env c (onExit pid exitCode st))
     = Some (length (heap st))
  /\ heap (executeCode env c (onExit pid exitCode st)) !! h = Some p.
Proof.
  intros Hh Hp Hk Hne [q Hq] Hspawn.
  assert (E : onExit pid exitCode st
              = setProcess None
                  (logLine (str "[SuperCollider] sclang exited with code "
                              ++ match exitCode with
                                 | Some z => ofInt z
                                 | None => str "null"
                                 end) st)).
  { unfold onExit. rewrite Hq. reflexivity. }
  rewrite E. split; [reflexivity|]. split; [reflexivity|].
  rewrite executeCode_stopped by (assumption || reflexivity).
  cbn [heap sclangProcess setTimeout setTimers postShow logLine setProcess setHeap].
  repeat split. apply lookup_app_l_Some, Hp.
Qed.

Lemma exit_of_other_process_witness :
  heap (run linuxEnv [StopSclang; StartSclang; ProcExit 0 None; BootServer] running)
  = [mkProcess (str "sclang") true true (Some []);
     mkProcess (str "sclang") true false (Some []);
     mkProcess (str "sclang") true false (Some [])]
  /\ sclangProcess
       (run linuxEnv [StopSclang; StartSclang; ProcExit 0 None; BootServer] running)
     = Some 2%nat.
Proof.
  destruct (exit_of_other_process linuxEnv
              (run linuxEnv [StopSclang; StartSclang] running) 1 0
              (mkProcess (str "sclang") true false (Some [])) None (str "s.boot;"))
    as (_ & _ & H3 & H4 & _);
    [reflexivity | reflexivity | reflexivity | discriminate
    | eexists; reflexivity | reflexivity |].
  split; [exact H3 | exact H4].
Defined.

(** ** The word at the cursor, completion and hover *)

Lemma substring_between (text : jsstring) (s e : nat) :
  (s <= e)%nat -> (e <= length text)%nat ->
  substring text (Z.of_nat s) (Z.of_nat e) = take (e - s) (drop s text).
Proof.
  intros Hse He.
  replace (Z.of_nat e) with (Z.of_nat s + Z.of_nat (e - s)) by lia.
  apply substring_slice. lia.
Qed.

Section WordScan.

Import ScdMode.

Lemma wordStart_le (text : jsstring) (n : nat) : (wordStart text n <= n)%nat.
Proof.
  induction n as [|n IH]; cbn [wordStart]; [lia|].
  destruct (testAt isWordUnitOrTilde text n); lia.
Qed.

Lemma wordStart_units (text : jsstring) (n i : nat) :
  (wordStart text n <= i < n)%nat -> testAt isWordUnitOrTilde text i = true.
Proof.
  induction n as [|n IH]; cbn [wordStart]; [lia|].
  destruct (testAt isWordUnitOrTilde text n) eqn:E; [|lia].
  intros H. destruct (decide (i = n)) as [->|Hne]; [exact E | apply IH; lia].
Qed.

Lemma wordStart_maximal (text : jsstring) (n : nat) :
  wordStart text n = 0%nat
  \/ testAt isWordUnitOrTilde text (wordStart text n - 1) = false.
Proof.
  induction n as [|n IH]; cbn [wordStart]; [left; reflexivity|].
  destruct (testAt isWordUnitOrTilde text n) eqn:E; [exact IH|].
  right. replace (S n - 1)%nat with n by lia. exact E.
Qed.

Lemma wordStart_run (text : jsstring) (s n : nat) :
  (s <= n)%nat ->
  (forall i, (s <= i < n)%nat -> testAt isWordUnitOrTilde text i = true) ->
  (s = 0%nat \/ testAt isWordUnitOrTilde text (s - 1) = false) ->
  wordStart text n = s.
Proof.
  intros Hsn Hin Hleft. induction n as [|n IH]; cbn [wordStart]; [lia|].
  destruct (decide (s = S n)) as [->|Hne].
  - destruct Hleft as [H|H]; [discriminate|].
    replace (S n - 1)%nat with n in H by lia. rewrite H. reflexivity.
  - rewrite (Hin n) by lia. apply IH; [lia|]. intros i Hi. apply Hin. lia.
Qed.

Lemma wordEnd_spec (rest : jsstring) :
  forall e, exists k,
    wordEnd rest e = (e + k)%nat
    /\ (k <= length rest)%nat
    /\ Forall (fun c => isWordUnit c = true) (take k rest)
    /\ match rest !! k with
       | Some c => isWordUnit c = false
       | None => True
       end.
Proof.
  induction rest as [|c rest IH]; intros e; cbn [wordEnd].
  - exists 0%nat. refine (conj _ (conj _ (conj _ I))); [lia | cbn; lia | constructor].
  - destruct (isWordUnit c) eqn:E.
    + destruct (IH (S e)) as (k & Hk & Hlen & Hall & Hstop).
      exists (S k). refine (conj _ (conj _ (conj _ Hstop))).
      * lia.
      * cbn [length]. lia.
      * cbn [take]. constructor; assumption.
    + exists 0%nat. refine (conj _ (conj _ (conj _ E))); [lia | cbn; lia | constructor].
Qed.

Lemma wordEnd_run (a post : jsstring) (e : nat) :
  Forall (fun c => isWordUnit c = true) a ->
  match head post with
  | Some c => isWordUnit c = false
  | None => True
  end ->
  wordEnd (a ++ post) e = (e + length a)%nat.
Proof.
  intros Ha Hpost. revert e. induction Ha as [|c a Hc Ha IH]; intros e; cbn [app length].
  - destruct post as [|c post]; cbn [wordEnd]; [lia|].
    cbn in Hpost. rewrite Hpost. lia.
  - cbn [wordEnd]. rewrite Hc, IH. lia.
Qed.

End WordScan.

Section ModeFacts.

Import ScdMode.

Context {Document : Type}.
Variable getText : Document -> jsstring.
Variable offsetAt : Document -> Position -> nat.
Variable positionAt : Document -> nat -> Position.
Context {DocValue : Type}.
Variable KEYWORD_DOCS CLASS_DOCS METHOD_DOCS : jsstring -> option DocValue.
Variable truthyDoc : DocValue -> bool.

(** X21. The word at the cursor.  For an offset inside the text, the word
    found runs from [start] to [end] around the offset, is the text between
    the two, consists of letters, digits, underscores and tildes only, and
    cannot be extended: the code unit before [start] is none of these (or
    [start] is 0) and the code unit at [end] is no letter, digit or
    underscore (or [end] is the end of the text). *)
Theorem getWordAtPosition_spec (d : Document) (p : Position) :
  (offsetAt d p <= length (getText d))%nat ->
  (start (getWordAtPosition getText offsetAt d p) <= offsetAt d p)%nat
  /\ (offsetAt d p <= end_ (getWordAtPosition getText offsetAt d p))%nat
  /\ (end_ (getWordAtPosition getText offsetAt d p) <= length (getText d))%nat
  /\ word (getWordAtPosition getText offsetAt d p)
     = take (end_ (getWordAtPosition getText offsetAt d p)
             - start (getWordAtPosition getText offsetAt d p))
            (drop (start (getWordAtPosition getText offsetAt d p)) (getText d))
  /\ Forall (fun c => isWordUnitOrTilde c = true)
            (word (getWordAtPosition getText offsetAt d p))
  /\ (start (getWordAtPosition getText offsetAt d p) = 0%nat
      \/ testAt isWordUnitOrTilde (getText d)
           (start (getWordAtPosition getText offsetAt d p) - 1) = false)
  /\ testAt isWordUnit (getText d)
       (end_ (getWordAtPosition getText offsetAt d p)) = false.
Proof.
  intros Hoff. unfold getWordAtPosition. cbn [start end_ word].
  set (text := getText d) in *. set (offset := offsetAt d p) in *.
  pose proof (wordStart_le text offset) as Hs.
  destruct (wordEnd_spec (drop offset text) offset) as (k & Hk & Hlen & Hall & Hstop).
  rewrite length_drop in Hlen. rewrite Hk.
  assert (Hword : substring text (Z.of_nat (wordStart text offset))
                    (Z.of_nat (offset + k))
                  = take (offset + k - wordStart text offset)
                      (drop (wordStart text offset) text))
    by (apply substring_between; lia).
  split; [exact Hs|]. split; [lia|]. split; [lia|]. split; [exact Hword|].
  split; [|split; [apply wordStart_maximal|]].
  - rewrite Hword. apply Forall_lookup. intros i c Hi.
    apply lookup_take_Some in Hi as [Hi Hlt]. rewrite lookup_drop in Hi.
    destruct (Nat.lt_ge_cases (wordStart text offset + i) offset) as [Hb|Ha].
    + pose proof (wordStart_units text offset (wordStart text offset + i)
                    ltac:(lia)) as Hu.
      unfold testAt in Hu. rewrite Hi in Hu. exact Hu.
    + rewrite Forall_lookup in Hall.
      assert (Hc : isWordUnit c = true).
      { apply (Hall (wordStart text offset + i - offset)%nat).
        rewrite lookup_take_lt by lia. rewrite lookup_drop.
        rewrite <- Hi. f_equal. lia. }
      unfold isWordUnitOrTilde. rewrite Hc. reflexivity.
  - unfold testAt. rewrite lookup_drop in Hstop.
    destruct (text !! (offset + k)%nat); [exact Hstop | reflexivity].
Qed.

(** The word of an identifier, from any offset in or next to it. *)
Lemma getWordAtPosition_identifier
    (d : Document) (p : Position) (pre w post : jsstring) :
  getText d = pre ++ w ++ post ->
  Forall (fun c => isWordUnit c = true) w ->
  match last pre with
  | Some c => isWordUnitOrTilde c = false
  | None => True
  end ->
  match head post with
  | Some c => isWordUnit c = false
  | None => True
  end ->
  (length pre <= offsetAt d p <= length pre + length w)%nat ->
  getWordAtPosition getText offsetAt d p
  = mkWord w (length pre) (length pre + length w).
Proof.
  intros Htext Hw Hpre Hpost Hoff. unfold getWordAtPosition.
  set (offset := offsetAt d p) in *. rewrite Htext.
  assert (Hs : wordStart (pre ++ w ++ post) offset = length pre).
  { apply wordStart_run; [lia | |].
    - intros i Hi. unfold testAt.
      rewrite lookup_app_r by lia. rewrite lookup_app_l by lia.
      destruct (w !! (i - length pre)%nat) as [c|] eqn:Ec.
      + rewrite Forall_lookup in Hw. unfold isWordUnitOrTilde.
        rewrite (Hw _ _ Ec). reflexivity.
      + apply lookup_ge_None in Ec. lia.
    - destruct pre as [|a pre'] eqn:Ep using rev_ind; [left; reflexivity|].
      right. clear IHpre'. rewrite last_snoc in Hpre. unfold testAt.
      rewrite length_app. cbn [length].
      replace (length pre' + 1 - 1)%nat with (length pre') by lia.
      rewrite <- app_assoc. cbn [app].
      rewrite list_lookup_middle by reflexivity. exact Hpre. }
  assert (He : wordEnd (drop offset (pre ++ w ++ post)) offset
               = (length pre + length w)%nat).
  { rewrite drop_app_ge by lia. rewrite drop_app_le by lia.
    rewrite wordEnd_run; [| |exact Hpost].
    - rewrite length_drop. lia.
    - apply Forall_drop, Hw. }
  rewrite Hs, He. f_equal.
  rewrite substring_between by (rewrite ?length_app; lia).
  rewrite drop_app_length.
  replace (length pre + length w - length pre)%nat with (length w) by lia.
  apply take_app_length.
Qed.

(** X22. Anywhere in an identifier, the same answers.  For a run of letters,
    digits and underscores that is delimited on both sides, every cursor
    offset from its first code unit to just after its last gives the
    identifier as the word, hence the same completion list and the same
    hover: completion takes the whole identifier as its prefix, the part
    after the cursor included. *)
Theorem same_identifier_same_answers
    (d : Document) (p1 p2 : Position) (pre w post : jsstring) :
  getText d = pre ++ w ++ post ->
  Forall (fun c => isWordUnit c = true) w ->
  match last pre with
  | Some c => isWordUnitOrTilde c = false
  | None => True
  end ->
  match head post with
  | Some c => isWordUnit c = false
  | None => True
  end ->
  (length pre <= offsetAt d p1 <= length pre + length w)%nat ->
  (length pre <= offsetAt d p2 <= length pre + length w)%nat ->
  word (getWordAtPosition getText offsetAt d p1) = w
  /\ doComplete getText offsetAt KEYWORD_DOCS CLASS_DOCS METHOD_DOCS d p1
     = doComplete getText offsetAt KEYWORD_DOCS CLASS_DOCS METHOD_DOCS d p2
  /\ doHover getText offsetAt positionAt KEYWORD_DOCS CLASS_DOCS METHOD_DOCS
             truthyDoc d p1
     = doHover getText offsetAt positionAt KEYWORD_DOCS CLASS_DOCS METHOD_DOCS
               truthyDoc d p2.
Proof.
  intros Htext Hw Hpre Hpost H1 H2.
  pose proof (getWordAtPosition_identifier d p1 pre w post Htext Hw Hpre Hpost H1) as E1.
  pose proof (getWordAtPosition_identifier d p2 pre w post Htext Hw Hpre Hpost H2) as E2.
  unfold doComplete, doHover. rewrite E1, E2. repeat split.
Qed.

End ModeFacts.

Section CompletionFacts.

Import ScdMode.

Context {Document : Type}.
Variable getText : Document -> jsstring.
Variable offsetAt : Document -> Position -> nat.
Variable positionAt : Document -> nat -> Position.
Context {DocValue : Type}.
Variable KEYWORD_DOCS CLASS_DOCS METHOD_DOCS : jsstring -> option DocValue.
Variable truthyDoc : DocValue -> bool.

(** A loop of [doComplete] keeps the entries that match, in table order. *)
Lemma pushMatching_filter
    (table : list jsstring) (k : CompletionItemKind) (dt : jsstring)
    (docs : jsstring -> option DocValue) (wl : jsstring)
    (its : list (CompletionItem DocValue)) :
  pushMatching table k dt docs wl its
  = its ++ map (fun e => mkItem e k dt (docs e))
             (List.filter (fun e => startsWith (toLowerCase e) wl) table).
Proof.
  unfold pushMatching. revert its.
  induction table as [|e table IH]; intros its; cbn [fold_left List.filter map].
  - rewrite app_nil_r. reflexivity.
  - rewrite IH. destruct (startsWith (toLowerCase e) wl); [|reflexivity].
    cbn [map]. rewrite <- app_assoc. reflexivity.
Qed.

Lemma doComplete_closed (d : Document) (p : Position) :
  doComplete getText offsetAt KEYWORD_DOCS CLASS_DOCS METHOD_DOCS d p
  = mkList false
      (map (fun e => mkItem e Keyword (str "SuperCollider keyword") (KEYWORD_DOCS e))
           (List.filter
              (fun e => startsWith (toLowerCase e)
                          (toLowerCase (word (getWordAtPosition getText offsetAt d p))))
              SC_KEYWORDS)
       ++ map (fun e => mkItem e ClassKind (str "SuperCollider class") (CLASS_DOCS e))
           (List.filter
              (fun e => startsWith (toLowerCase e)
                          (toLowerCase (word (getWordAtPosition getText offsetAt d p))))
              SC_CLASSES)
       ++ map (fun e => mkItem e Method (str "SuperCollider method") (METHOD_DOCS e))
           (List.filter
              (fun e => startsWith (toLowerCase e)
                          (toLowerCase (word (getWordAtPosition getText offsetAt d p))))
              SC_METHODS)).
Proof.
  unfold doComplete. cbn zeta. rewrite !pushMatching_filter.
  cbn [app]. rewrite <- app_assoc. reflexivity.
Qed.

(** X23. The completion list, in closed form: the keywords, then the
    classes, then the methods whose lower-case form starts with the
    lower-case word at the cursor, each group in table order and each item
    with the kind, detail and documentation of its table; the list is never
    marked incomplete.  So every item offered matches the word, whatever
    its case, and every table entry that matches is offered. *)
Theorem doComplete_items (d : Document) (p : Position) :
  doComplete getText offsetAt KEYWORD_DOCS CLASS_DOCS METHOD_DOCS d p
  = mkList false
      (map (fun e => mkItem e Keyword (str "SuperCollider keyword") (KEYWORD_DOCS e))
           (List.filter
              (fun e => startsWith (toLowerCase e)
                          (toLowerCase (word (getWordAtPosition getText offsetAt d p))))
              SC_KEYWORDS)
       ++ map (fun e => mkItem e ClassKind (str "SuperCollider class") (CLASS_DOCS e))
           (List.filter
              (fun e => startsWith (toLowerCase e)
                          (toLowerCase (word (getWordAtPosition getText offsetAt d p))))
              SC_CLASSES)
       ++ map (fun e => mkItem e Method (str "SuperCollider method") (METHOD_DOCS e))
           (List.filter
              (fun e => startsWith (toLowerCase e)
                          (toLowerCase (word (getWordAtPosition getText offsetAt d p))))
              SC_METHODS))
  /\ (forall it,
        In it (items (doComplete getText offsetAt KEYWORD_DOCS CLASS_DOCS
                        METHOD_DOCS d p)) ->
        startsWith (toLowerCase (label it))
          (toLowerCase (word (getWordAtPosition getText offsetAt d p))) = true)
  /\ (forall e,
        startsWith (toLowerCase e)
          (toLowerCase (word (getWordAtPosition getText offsetAt d p))) = true ->
        (In e SC_KEYWORDS ->
         In (mkItem e Keyword (str "SuperCollider keyword") (KEYWORD_DOCS e))
            (items (doComplete getText offsetAt KEYWORD_DOCS CLASS_DOCS
                      METHOD_DOCS d p)))
        /\ (In e SC_CLASSES ->
            In (mkItem e ClassKind (str "SuperCollider class") (CLASS_DOCS e))
               (items (doComplete getText offsetAt KEYWORD_DOCS CLASS_DOCS
                         METHOD_DOCS d p)))
        /\ (In e SC_METHODS ->
            In (mkItem e Method (str "SuperCollider method") (METHOD_DOCS e))
               (items (doComplete getText offsetAt KEYWORD_DOCS CLASS_DOCS
                         METHOD_DOCS d p)))).
Proof.
  pose proof (doComplete_closed d p) as E.
  split; [exact E|]. rewrite E. cbn [items]. split.
  - intros it Hit. rewrite !in_app_iff, !in_map_iff in Hit.
    destruct Hit as [(e & <- & He) | [(e & <- & He) | (e & <- & He)]];
      apply filter_In in He as [_ He]; exact He.
  - intros e He. rewrite !in_app_iff, !in_map_iff.
    split; [|split]; intros Hin.
    + left. exists e. split; [reflexivity|]. apply filter_In. auto.
    + right. left. exists e. split; [reflexivity|]. apply filter_In. auto.
    + right. right. exists e. split; [reflexivity|]. apply filter_In. auto.
Qed.

Lemma substring_empty (text : jsstring) (a : Z) : substring text a a = [].
Proof.
  unfold substring. cbn zeta.
  replace (Z.max (Z.min (Z.max a 0) (Z.of_nat (length text)))
                 (Z.min (Z.max a 0) (Z.of_nat (length text)))
           - Z.min (Z.min (Z.max a 0) (Z.of_nat (length text)))
                   (Z.min (Z.max a 0) (Z.of_nat (length text))))
    with 0 by lia.
  reflexivity.
Qed.

Lemma filter_all {A : Type} (f : A -> bool) (l : list A) :
  (forall x, f x = true) -> List.filter f l = l.
Proof.
  intros Hf. induction l as [|x l IH]; cbn [List.filter]; [reflexivity|].
  rewrite Hf, IH. reflexivity.
Qed.

(** X24. No word at the cursor.  When the code unit before the cursor is no
    letter, digit, underscore or tilde and the code unit at the cursor is no
    letter, digit or underscore, the word is empty: completion then offers
    every entry of the three tables, and hover answers nothing. *)
Theorem no_word_at_cursor (d : Document) (p : Position) :
  (offsetAt d p = 0%nat
   \/ testAt isWordUnitOrTilde (getText d) (offsetAt d p - 1) = false) ->
  testAt isWordUnit (getText d) (offsetAt d p) = false ->
  getWordAtPosition getText offsetAt d p = mkWord [] (offsetAt d p) (offsetAt d p)
  /\ items (doComplete getText offsetAt KEYWORD_DOCS CLASS_DOCS METHOD_DOCS d p)
     = map (fun e => mkItem e Keyword (str "SuperCollider keyword") (KEYWORD_DOCS e))
           SC_KEYWORDS
       ++ map (fun e => mkItem e ClassKind (str "SuperCollider class") (CLASS_DOCS e))
              SC_CLASSES
       ++ map (fun e => mkItem e Method (str "SuperCollider method") (METHOD_DOCS e))
              SC_METHODS
  /\ length (items (doComplete getText offsetAt KEYWORD_DOCS CLASS_DOCS
                      METHOD_DOCS d p)) = 303%nat
  /\ doHover getText offsetAt positionAt KEYWORD_DOCS CLASS_DOCS METHOD_DOCS
             truthyDoc d p = None.
Proof.
  intros Hbefore Hat.
  assert (E : getWordAtPosition getText offsetAt d p
              = mkWord [] (offsetAt d p) (offsetAt d p)).
  { unfold getWordAtPosition.
    rewrite (wordStart_run (getText d) (offsetAt d p) (offsetAt d p));
      [| lia | intros i Hi; lia | exact Hbefore].
    assert (He : wordEnd (drop (offsetAt d p) (getText d)) (offsetAt d p)
                 = offsetAt d p).
    { unfold testAt in Hat.
      destruct (drop (offsetAt d p) (getText d)) as [|c rest] eqn:Ed; [reflexivity|].
      assert (Hc : getText d !! offsetAt d p = Some c).
      { pose proof (lookup_drop (getText d) (offsetAt d p) 0) as Hl.
        rewrite Ed, Nat.add_0_r in Hl. symmetry. exact Hl. }
      rewrite Hc in Hat. cbn [wordEnd]. rewrite Hat. reflexivity. }
    rewrite He, substring_empty. reflexivity. }
  assert (Hitems : items (doComplete getText offsetAt KEYWORD_DOCS CLASS_DOCS
                            METHOD_DOCS d p)
     = map (fun e => mkItem e Keyword (str "SuperCollider keyword") (KEYWORD_DOCS e))
           SC_KEYWORDS
       ++ map (fun e => mkItem e ClassKind (str "SuperCollider class") (CLASS_DOCS e))
              SC_CLASSES
       ++ map (fun e => mkItem e Method (str "SuperCollider method") (METHOD_DOCS e))
              SC_METHODS).
  { rewrite (doComplete_closed d p). rewrite E. cbn [items word toLowerCase map].
    rewrite !filter_all by reflexivity. reflexivity. }
  split; [exact E|]. split; [exact Hitems|]. split.
  - rewrite Hitems, !length_app, !length_map. reflexivity.
  - unfold doHover. rewrite E. reflexivity.
Qed.

(** X25. A hover, when there is one, is about the word at the cursor: the
    word is not empty, the range runs from its start to its end with the
    cursor inside, and the value is the truthy entry of the first of the
    keyword, class and method tables that has one for the word. *)
Theorem doHover_some (d : Document) (p : Position) (hv : Hover DocValue) :
  doHover getText offsetAt positionAt KEYWORD_DOCS CLASS_DOCS METHOD_DOCS
          truthyDoc d p = Some hv ->
  word (getWordAtPosition getText offsetAt d p) <> []
  /\ range_start hv
     = positionAt d (start (getWordAtPosition getText offsetAt d p))
  /\ range_end hv
     = positionAt d (end_ (getWordAtPosition getText offsetAt d p))
  /\ (start (getWordAtPosition getText offsetAt d p) <= offsetAt d p)%nat
  /\ (offsetAt d p <= end_ (getWordAtPosition getText offsetAt d p))%nat
  /\ (start (getWordAtPosition getText offsetAt d p)
      < end_ (getWordAtPosition getText offsetAt d p))%nat
  /\ truthyDoc (value hv) = true
  /\ (KEYWORD_DOCS (word (getWordAtPosition getText offsetAt d p)) = Some (value hv)
      \/ truthyEntry truthyDoc KEYWORD_DOCS
           (word (getWordAtPosition getText offsetAt d p)) = None
         /\ (CLASS_DOCS (word (getWordAtPosition getText offsetAt d p))
             = Some (value hv)
             \/ truthyEntry truthyDoc CLASS_DOCS
                  (word (getWordAtPosition getText offsetAt d p)) = None
                /\ METHOD_DOCS (word (getWordAtPosition getText offsetAt d p))
                   = Some (value hv))).
Proof.
  unfold doHover. set (w := getWordAtPosition getText offsetAt d p).
  destruct (word w) as [|c0 wd] eqn:Ew; [discriminate|]. cbn [truthy negb].
  rewrite <- Ew.
  assert (Hentry : forall table v,
            truthyEntry truthyDoc table (word w) = Some v ->
            table (word w) = Some v /\ truthyDoc v = true).
  { intros table v. unfold truthyEntry.
    destruct (table (word w)) as [v'|]; [|discriminate].
    destruct (truthyDoc v') eqn:Et; [|discriminate].
    intros H. injection H as <-. auto. }
  assert (Hs : (start w <= offsetAt d p)%nat) by apply wordStart_le.
  assert (He : (offsetAt d p <= end_ w)%nat).
  { unfold w, getWordAtPosition. cbn [end_].
    destruct (wordEnd_spec (drop (offsetAt d p) (getText d)) (offsetAt d p))
      as (k & -> & _). lia. }
  assert (Hlt : (start w < end_ w)%nat).
  { destruct (Nat.eq_dec (start w) (end_ w)) as [Eq|Hne]; [|lia].
    exfalso. assert (Hw : word w = []).
    { unfold w, getWordAtPosition in Eq |- *. cbn [start end_ word] in Eq |- *.
      rewrite Eq. apply substring_empty. }
    rewrite Hw in Ew. discriminate. }
  intros H.
  assert (Hne : word w <> []) by (rewrite Ew; discriminate).
  destruct (truthyEntry truthyDoc KEYWORD_DOCS (word w)) as [v|] eqn:Ek.
  { injection H as <-. destruct (Hentry _ _ Ek) as [Hv Ht].
    cbn [range_start range_end value].
    refine (conj Hne (conj eq_refl (conj eq_refl (conj Hs (conj He (conj Hlt
              (conj Ht _))))))).
    left. exact Hv. }
  destruct (truthyEntry truthyDoc CLASS_DOCS (word w)) as [v|] eqn:Ec.
  { injection H as <-. destruct (Hentry _ _ Ec) as [Hv Ht].
    cbn [range_start range_end value].
    refine (conj Hne (conj eq_refl (conj eq_refl (conj Hs (conj He (conj Hlt
              (conj Ht _))))))).
    right. split; [reflexivity|]. left. exact Hv. }
  destruct (truthyEntry truthyDoc METHOD_DOCS (word w)) as [v|] eqn:Em;
    [|discriminate].
  injection H as <-. destruct (Hentry _ _ Em) as [Hv Ht].
  cbn [range_start range_end value].
  refine (conj Hne (conj eq_refl (conj eq_refl (conj Hs (conj He (conj Hlt
            (conj Ht _))))))).
  right. split; [reflexivity|]. right. split; [reflexivity | exact Hv].
Qed.

End CompletionFacts.

Lemma getWordAtPosition_spec_witness :
  Forall (fun c => ScdMode.isWordUnitOrTilde c = true)
    (ScdMode.word
       (ScdMode.getWordAtPosition getText offsetAt
          (doc1 "x = ~freq2 * 3") (mkPosition 0 6)))
  /\ ScdMode.testAt ScdMode.isWordUnit (getText (doc1 "x = ~freq2 * 3"))
       (ScdMode.end_
          (ScdMode.getWordAtPosition getText offsetAt
             (doc1 "x = ~freq2 * 3") (mkPosition 0 6))) = false.
Proof.
  destruct (getWordAtPosition_spec getText offsetAt
              (doc1 "x = ~freq2 * 3") (mkPosition 0 6))
    as (_ & _ & _ & _ & H5 & _ & H7); [vm_compute; lia|].
  split; [exact H5 | exact H7].
Defined.

Lemma same_identifier_same_answers_witness :
  ScdMode.word
    (ScdMode.getWordAtPosition getText offsetAt
       (doc1 "a = SinOsc.ar(440)") (mkPosition 0 7)) = str "SinOsc"
  /\ ScdMode.doComplete getText offsetAt noDocs sampleDocs noDocs
       (doc1 "a = SinOsc.ar(440)") (mkPosition 0 7)
     = ScdMode.doComplete getText offsetAt noDocs sampleDocs noDocs
         (doc1 "a = SinOsc.ar(440)") (mkPosition 0 10)
  /\ ScdMode.doHover getText offsetAt linePositionAt noDocs sampleDocs noDocs
       truthy (doc1 "a = SinOsc.ar(440)") (mkPosition 0 7)
     = ScdMode.doHover getText offsetAt linePositionAt noDocs sampleDocs noDocs
         truthy (doc1 "a = SinOsc.ar(440)") (mkPosition 0 10).
Proof.
  apply (same_identifier_same_answers getText offsetAt linePositionAt
           noDocs sampleDocs noDocs truthy
           (doc1 "a = SinOsc.ar(440)") (mkPosition 0 7) (mkPosition 0 10)
           (str "a = ") (str "SinOsc") (str ".ar(440)")).
  - reflexivity.
  - vm_compute. repeat constructor.
  - reflexivity.
  - reflexivity.
  - vm_compute. lia.
  - vm_compute. lia.
Defined.

Lemma doComplete_items_witness :
  In (ScdMode.mkItem (str "SinOsc") ScdMode.ClassKind (str "SuperCollider class")
        (Some (str "**SinOsc** - Sine wave oscillator")))
     (ScdMode.items
        (ScdMode.doComplete getText offsetAt noDocs sampleDocs noDocs
           (doc1 "a = sin") (mkPosition 0 7))).
Proof.
  destruct (doComplete_items getText offsetAt noDocs sampleDocs noDocs
              (doc1 "a = sin") (mkPosition 0 7)) as (_ & _ & H).
  destruct (H (str "SinOsc")) as (_ & Hc & _); [reflexivity|].
  apply Hc. left. reflexivity.
Defined.

Lemma no_word_at_cursor_witness :
  length (ScdMode.items
            (ScdMode.doComplete getText offsetAt noDocs sampleDocs noDocs
               (doc1 "a = ") (mkPosition 0 4))) = 303%nat
  /\ ScdMode.doHover getText offsetAt linePositionAt noDocs sampleDocs noDocs
       truthy (doc1 "a = ") (mkPosition 0 4) = None.
Proof.
  destruct (no_word_at_cursor getText offsetAt linePositionAt
              noDocs sampleDocs noDocs truthy (doc1 "a = ") (mkPosition 0 4))
    as (_ & _ & H3 & H4); [right; reflexivity | reflexivity |].
  split; [exact H3 | exact H4].
Defined.

Lemma doHover_some_witness :
  ScdMode.range_start
    (ScdMode.mkHover (str "**SinOsc** - Sine wave oscillator")
       (mkPosition 0 4) (mkPosition 0 10)) = mkPosition 0 4
  /\ (4 < 10)%nat.
Proof.
  destruct (doHover_some getText offsetAt linePositionAt noDocs sampleDocs noDocs
              truthy (doc1 "a = SinOsc.ar(440)") (mkPosition 0 7)
              (ScdMode.mkHover (str "**SinOsc** - Sine wave oscillator")
                 (mkPosition 0 4) (mkPosition 0 10)))
    as (_ & H2 & _ & _ & _ & H6 & _); [reflexivity|].
  split; [exact H2 | exact H6].
Defined.

Section OlderMode.

Import ScdMode.

Context {Document : Type}.
Variable getText : Document -> jsstring.
Variable offsetAt : Document -> Position -> nat.
Context {DocValue : Type}.
Variable KEYWORD_DOCS CLASS_DOCS METHOD_DOCS : jsstring -> option DocValue.

Lemma startsWith_app (x a b : jsstring) :
  startsWith x (a ++ b) = true -> startsWith x a = true.
Proof.
  revert x. induction a as [|c a IH]; intros x; cbn [app startsWith]; [reflexivity|].
  destruct x as [|y x]; [discriminate|].
  intros H. apply andb_prop in H as [H1 H2]. rewrite H1, (IH x H2). reflexivity.
Qed.

Lemma older_pushMatching_filter
    (table : list jsstring) (k : CompletionItemKind) (dt wl : jsstring)
    (its : list (CompletionItem Empty_set)) :
  Part001.pushMatching table k dt wl its
  = its ++ map (fun e => mkItem e k dt None)
             (List.filter (fun e => startsWith (toLowerCase e) wl) table).
Proof.
  unfold Part001.pushMatching. revert its.
  induction table as [|e table IH]; intros its; cbn [fold_left List.filter map].
  - rewrite app_nil_r. reflexivity.
  - rewrite IH. destruct (startsWith (toLowerCase e) wl); [|reflexivity].
    cbn [map]. rewrite <- app_assoc. reflexivity.
Qed.

Lemma older_doComplete_items (d : Document) (p : Position) :
  Part001.doComplete getText offsetAt d p
  = mkList false
      (map (fun e => mkItem e Keyword (str "SuperCollider keyword") None)
           (List.filter
              (fun e => startsWith (toLowerCase e)
                          (toLowerCase
                             (word (Part001.getWordAtPosition getText offsetAt d p))))
              SC_KEYWORDS)
       ++ map (fun e => mkItem e ClassKind (str "SuperCollider class") None)
           (List.filter
              (fun e => startsWith (toLowerCase e)
                          (toLowerCase
                             (word (Part001.getWordAtPosition getText offsetAt d p))))
              SC_CLASSES)
       ++ map (fun e => mkItem e Method (str "SuperCollider method") None)
           (List.filter
              (fun e => startsWith (toLowerCase e)
                          (toLowerCase
                             (word (Part001.getWordAtPosition getText offsetAt d p))))
              SC_METHODS)).
Proof.
  unfold Part001.doComplete. cbn zeta. rewrite !older_pushMatching_filter.
  cbn [app]. rewrite <- app_assoc. reflexivity.
Qed.

(** An entry kept for a longer word is kept for a shorter one. *)
Lemma narrower_item
    (table : list jsstring) (k : CompletionItemKind) (dt : jsstring)
    (docs : jsstring -> option DocValue) (w tail : jsstring)
    (it : CompletionItem DocValue) :
  In it (map (fun e => mkItem e k dt (docs e))
             (List.filter
                (fun e => startsWith (toLowerCase e) (toLowerCase (w ++ tail)))
                table)) ->
  In (mkItem (label it) (kind it) (detail it) None)
     (map (fun e => mkItem e k dt (@None Empty_set))
          (List.filter (fun e => startsWith (toLowerCase e) (toLowerCase w))
             table)).
Proof.
  rewrite !in_map_iff. intros (e & <- & He).
  apply filter_In in He as [Hin He].
  unfold toLowerCase in He at 2. rewrite map_app in He.
  apply startsWith_app in He.
  exists e. split; [reflexivity|]. apply filter_In. split; assumption.
Qed.

(** X26. The two versions of the mode.  At the same position both find the
    same start; the word of the mode with hovering is the word of the older
    mode (the text between the start and the cursor) followed by the
    letters, digits and underscores after the cursor.  So whatever the mode
    with hovering offers for completion, the older mode offers too, with the
    same label, kind and detail. *)
Theorem completion_narrows_older (d : Document) (p : Position) :
  (offsetAt d p <= length (getText d))%nat ->
  start (getWordAtPosition getText offsetAt d p)
  = start (Part001.getWordAtPosition getText offsetAt d p)
  /\ (exists tail,
        word (getWordAtPosition getText offsetAt d p)
        = word (Part001.getWordAtPosition getText offsetAt d p) ++ tail
        /\ Forall (fun c => isWordUnit c = true) tail)
  /\ forall it,
       In it (items (doComplete getText offsetAt KEYWORD_DOCS CLASS_DOCS
                       METHOD_DOCS d p)) ->
       In (mkItem (label it) (kind it) (detail it) None)
          (items (Part001.doComplete getText offsetAt d p)).
Proof.
  intros Hoff.
  assert (Hword : exists tail,
            word (getWordAtPosition getText offsetAt d p)
            = word (Part001.getWordAtPosition getText offsetAt d p) ++ tail
            /\ Forall (fun c => isWordUnit c = true) tail).
  { unfold getWordAtPosition, Part001.getWordAtPosition. cbn [word].
    set (text := getText d) in *. set (offset := offsetAt d p) in *.
    pose proof (wordStart_le text offset) as Hs.
    destruct (wordEnd_spec (drop offset text) offset) as (k & -> & Hlen & Hall & _).
    rewrite length_drop in Hlen.
    exists (take k (drop offset text)). split; [|exact Hall].
    rewrite !substring_between by lia.
    replace (offset + k - wordStart text offset)%nat
      with ((offset - wordStart text offset) + k)%nat by lia.
    rewrite <- take_take_drop. f_equal. rewrite drop_drop. f_equal. f_equal. lia. }
  split; [reflexivity|]. split; [exact Hword|].
  destruct Hword as (tail & Hw & _).
  intros it Hit.
  rewrite (doComplete_closed getText offsetAt KEYWORD_DOCS CLASS_DOCS METHOD_DOCS d p)
    in Hit.
  rewrite older_doComplete_items.
  rewrite Hw in Hit. clear Hw.
  revert Hit. cbn [items].
  generalize (word (Part001.getWordAtPosition getText offsetAt d p)).
  generalize SC_KEYWORDS SC_CLASSES SC_METHODS.
  intros ks cs ms w Hit.
  rewrite !in_app_iff in Hit |- *.
  destruct Hit as [Hit | [Hit | Hit]];
    [left | right; left | right; right];
    eapply narrower_item; exact Hit.
Qed.

End OlderMode.

Lemma completion_narrows_older_witness :
  exists tail,
    ScdMode.word
      (ScdMode.getWordAtPosition getText offsetAt
         (doc1 "a = SinOsc.ar(440)") (mkPosition 0 7))
    = ScdMode.word
        (Part001.getWordAtPosition getText offsetAt
           (doc1 "a = SinOsc.ar(440)") (mkPosition 0 7)) ++ tail
    /\ Forall (fun c => ScdMode.isWordUnit c = true) tail.
Proof.
  destruct (completion_narrows_older getText offsetAt noDocs sampleDocs noDocs
              (doc1 "a = SinOsc.ar(440)") (mkPosition 0 7))
    as (_ & H & _); [vm_compute; lia | exact H].
Defined.

(** X20. Whatever happens after activation, the handle is either null or a
    reference to a process that exists, has not been killed and has its
    input stream; so the extension is without a live handle exactly when
    the handle is null. *)
Theorem reachable_handle (env : Env) (es : list Event) :
  match sclangProcess (run env es initial) with
  | None => isLive (run env es initial) = false
  | Some h =>
      isLive (run env es initial) = true
      /\ exists p, heap (run env es initial) !! h = Some p
                   /\ killed p = false /\ is_Some (stdin p)
  end.
Proof.
  pose proof (handleLive_run env es) as H.
  unfold handleLive, isLive, deref in *.
  destruct (sclangProcess (run env es initial)) as [h|]; [|reflexivity].
  destruct H as (p & Hp & Hk & Hin). rewrite Hp, Hk.
  split; [reflexivity|]. exists p. auto.
Qed.

Lemma written_chunks_are_commands_witness :
  last (str "s.boot;" ++ [ESC]) = Some ESC
  /\ (1 < length (str "s.boot;" ++ [ESC]))%nat.
Proof.
  destruct (written_chunks_are_commands linuxEnv [BootServer; TimerElapsed 0])
    as [_ H].
  apply H. vm_compute. apply list_elem_of_here.
Defined.

(** The entries of the three tables hold ASCII code units only, so
    [toLowerCase] as modelled is the lowering JavaScript performs on
    them. *)
Lemma tables_ascii :
  forallb (forallb (fun c => (c <? 128)%N))
    (ScdMode.SC_KEYWORDS ++ ScdMode.SC_CLASSES ++ ScdMode.SC_METHODS) = true.
Proof. vm_compute. reflexivity. Qed.
